(** * Dataset Cleaner front end: upload validation, submission and job polling

    A shallow embedding of the client-side upload-and-poll code:

    - [services/api.ts]: [API_BASE_URL], [uploadDataset], [getDownloadUrl];
    - [hooks/usePolling.ts]: the interval driver [usePolling] and its [stop];
    - [components/FileUpload.tsx]: [handleFileSelect] and [handleUpload];
    - [components/JobStatusTracker.tsx]: [fetchJobStatus] and [handleStop],
      the status icon, colours and cards;
    - [pages/System.tsx]: the quality-mode registry, the upload callbacks
      and the manual status check.

    React state setters are modelled as updates of a state record, and the
    observable side effects of a handler (toasts, console output, prop
    callbacks, HTTP requests) as a log of [Effect]s in program order. *)

From Stdlib Require Import ZArith QArith Qround List String Ascii Bool Lia DecimalString.
Import ListNotations.
Local Open Scope string_scope.
Local Open Scope Z_scope.

Set Implicit Arguments.

(** ** JavaScript strings and values *)

Module Js.

(** [String.prototype.includes]: [sub] occurs somewhere in [s]. *)
Fixpoint includes (s sub : string) : bool :=
  String.prefix sub s ||
  match s with
  | EmptyString => false
  | String _ rest => includes rest sub
  end.

(** [String.prototype.split] with a one-character separator.  [cur] holds
    the characters of the segment being read, most recent first. *)
Fixpoint split_from (sep : ascii) (cur : list ascii) (s : string) : list string :=
  match s with
  | EmptyString => [string_of_list_ascii (rev cur)]
  | String c rest =>
      if Ascii.eqb c sep
      then string_of_list_ascii (rev cur) :: split_from sep [] rest
      else split_from sep (c :: cur) rest
  end.

Definition split (sep : ascii) (s : string) : list string := split_from sep [] s.

(** [Array.prototype.pop] as used for its result: the last element, or
    [undefined] ([None]) on the empty array. *)
Fixpoint pop (xs : list string) : option string :=
  match xs with
  | [] => None
  | [x] => Some x
  | _ :: rest => pop rest
  end.

Definition lower_ascii (c : ascii) : ascii :=
  let n := nat_of_ascii c in
  if (65 <=? n)%nat && (n <=? 90)%nat then ascii_of_nat (n + 32) else c.

(** [String.prototype.toLowerCase] on ASCII text: [A]-[Z] are mapped, every
    other byte is left as it is (the mappings JavaScript has for non-ASCII
    letters are outside this model). *)
Fixpoint toLowerCase (s : string) : string :=
  match s with
  | EmptyString => EmptyString
  | String c rest => String (lower_ascii c) (toLowerCase rest)
  end.

(** Decimal rendering of an integral number, as in a template literal, for
    magnitudes below 1e21 (from there on JavaScript prints an exponent). *)
Definition number_toString (n : Z) : string :=
  NilZero.string_of_int (Z.to_int n).

(** The values an option object of [uploadDataset] can hold. *)
Inductive value : Type :=
| VString (s : string)
| VBool (b : bool)
| VNumber (n : Z)
| VUndefined
| VNull.

Definition value_toString (v : value) : string :=
  match v with
  | VString s => s
  | VBool true => "true"
  | VBool false => "false"
  | VNumber n => number_toString n
  | VUndefined => "undefined"
  | VNull => "null"
  end.

Definition is_nullish (v : value) : bool :=
  match v with
  | VUndefined | VNull => true
  | _ => false
  end.

(** [a || b] on an optional string: the empty string and [undefined] are
    falsy. *)
Definition or_else (a : option string) (b : string) : string :=
  match a with
  | Some s => if String.eqb s "" then b else s
  | None => b
  end.

(** Whether [c] occurs nowhere in [s]. *)
Fixpoint free_of (c : ascii) (s : string) : bool :=
  match s with
  | EmptyString => true
  | String c' rest => negb (Ascii.eqb c' c) && free_of c rest
  end.

(** The prefixes of [s], the empty one first. *)
Fixpoint prefixes (s : string) : list string :=
  EmptyString ::
  match s with
  | EmptyString => []
  | String c rest => map (String c) (prefixes rest)
  end.

(** Every string [sub] with [includes s sub]: the prefixes of the suffixes
    of [s]. *)
Fixpoint substrings (s : string) : list string :=
  (prefixes s ++
   match s with
   | EmptyString => []
   | String _ rest => substrings rest
   end)%list.

(** [Math.round]: the nearest integer, halves upwards. *)
Definition Math_round (x : Q) : Z := Qfloor (x + (1 # 2)).

End Js.

(** ** Handlers: state updates with a log of side effects *)

Section Handler.

Variables (St Eff : Type).

Definition Handler (A : Type) : Type := St -> A * St * list Eff.

Definition ret {A} (a : A) : Handler A := fun s => (a, s, []).

Definition bind {A B} (m : Handler A) (k : A -> Handler B) : Handler B :=
  fun s =>
    let '(a, s1, l1) := m s in
    let '(b, s2, l2) := k a s1 in
    (b, s2, (l1 ++ l2)%list).

Definition update (f : St -> St) : Handler unit := fun s => (tt, f s, []).

Definition emit (e : Eff) : Handler unit := fun s => (tt, s, [e]).

Definition when (c : bool) (m : Handler unit) : Handler unit :=
  if c then m else ret tt.

Definition exec {A} (m : Handler A) (s : St) : St := snd (fst (m s)).

Definition effects {A} (m : Handler A) (s : St) : list Eff := snd (m s).

End Handler.

Arguments ret {St Eff A} a.
Arguments update {St Eff} f.
Arguments emit {St Eff} e.
Arguments when {St Eff} c m.

Declare Scope handler_scope.
Delimit Scope handler_scope with handler.
Notation "m1 ;; m2" := (bind m1 (fun _ => m2))
  (at level 61, right associativity) : handler_scope.
Local Open Scope handler_scope.

(** ** services/api.ts *)

Module Api.

(** [process.env.REACT_APP_API_URL || 'http://localhost:8000'] *)
Definition API_BASE_URL (env : option string) : string :=
  Js.or_else env "http://localhost:8000".

Inductive Status : Type := uploaded | processing | completed | failed.

Definition Status_eqb (a b : Status) : bool :=
  match a, b with
  | uploaded, uploaded | processing, processing
  | completed, completed | failed, failed => true
  | _, _ => false
  end.

Record DatasetInfo : Type := {
  total_images : Z;
  file_size_mb : Q;
  formats : list string
}.

Record JobStatus : Type := {
  job_id : string;
  status : Status;
  progress : Q;
  message : string;
  download_url : option string;
  download_ready : option bool;
  dataset_info : option DatasetInfo
}.

Record File : Type := {
  name : string;
  size : Z   (* bytes *)
}.

(** An option object is the ordered list of its own enumerable entries. *)
Definition Options : Type := list (string * Js.value).

Record PostRequest : Type := {
  path : string;
  params : list (string * string);  (* the [URLSearchParams] entries *)
  body_file : File                  (* the [file] part of the form data *)
}.

(** The entries [uploadDataset] appends to its [URLSearchParams]. *)
Definition upload_params (options : Options) : list (string * string) :=
  map (fun kv => (fst kv, Js.value_toString (snd kv)))
      (filter (fun kv => negb (Js.is_nullish (snd kv))) options).

(** The request [uploadDataset] posts. *)
Definition uploadDataset (file : File) (options : Options) : PostRequest :=
  {| path := "/api/v1/upload";
     params := upload_params options;
     body_file := file |}.

(** The request path of [getJobStatus]. *)
Definition getJobStatus_path (jobId : string) : string :=
  "/api/v1/job/" ++ jobId.

Definition getDownloadUrl (env : option string) (jobId : string) : string :=
  API_BASE_URL env ++ "/api/v1/download/" ++ jobId.

End Api.

(** The shape of a rejected axios call: [err.response?.status] and
    [err.response?.data?.detail]. *)
Module Axios.

Record Response : Type := {
  status : Z;
  detail : option string
}.

Record Error : Type := {
  response : option Response
}.

Definition response_status (err : Error) : option Z :=
  option_map status (response err).

Definition response_detail (err : Error) : option string :=
  match response err with
  | Some r => detail r
  | None => None
  end.

End Axios.

(** ** components/FileUpload.tsx *)

Module FileUpload.
Import Api.

(** [UploadResponse] of [services/api.ts]. *)
Record UploadResponse : Type := {
  success : bool;
  job_id : string;
  message : string;
  quality_mode : string;
  quality_description : string;
  expected_retention_rate : string;
  status_url : string;
  estimated_time : string;
  download_url : option string
}.

(** Optional props; [None] is a prop left out.  The two callbacks are
    recorded by whether they are supplied: calling one is an [Effect]. *)
Record FileUploadProps : Type := {
  onUploadSuccess : bool;
  onUploadError : bool;
  acceptedTypes_prop : option string;
  maxSize_prop : option Z;      (* in MB *)
  qualityMode_prop : option string
}.

Definition default {A} (o : option A) (d : A) : A :=
  match o with Some a => a | None => d end.

Definition acceptedTypes (p : FileUploadProps) : string :=
  default (acceptedTypes_prop p) ".zip,.jpg,.jpeg,.png,.bmp,.tiff,.webp".

Definition maxSize (p : FileUploadProps) : Z := default (maxSize_prop p) 1024.

Definition qualityMode (p : FileUploadProps) : string :=
  default (qualityMode_prop p) "balanced".

Record State : Type := {
  selectedFile : option File;
  dragActive : bool;
  uploading : bool;
  uploadProgress : Z
}.

Definition initial : State :=
  {| selectedFile := None; dragActive := false;
     uploading := false; uploadProgress := 0 |}.

Definition setSelectedFile (f : option File) (s : State) : State :=
  {| selectedFile := f; dragActive := dragActive s;
     uploading := uploading s; uploadProgress := uploadProgress s |}.

Definition setUploading (b : bool) (s : State) : State :=
  {| selectedFile := selectedFile s; dragActive := dragActive s;
     uploading := b; uploadProgress := uploadProgress s |}.

Definition setUploadProgress (f : Z -> Z) (s : State) : State :=
  {| selectedFile := selectedFile s; dragActive := dragActive s;
     uploading := uploading s; uploadProgress := f (uploadProgress s) |}.

Inductive Effect : Type :=
| toast_error (msg : string)
| toast_success (msg : string)
| toast_loading (msg : string)
| toast_dismiss
| setInterval (ms : Z)
| clearInterval
| post (req : PostRequest)
| call_onUploadSuccess (r : UploadResponse)
| call_onUploadError (msg : string)
| clear_input.

Definition is_post (e : Effect) : bool :=
  match e with post _ => true | _ => false end.

Definition is_setInterval (e : Effect) : bool :=
  match e with setInterval _ => true | _ => false end.

Definition is_clearInterval (e : Effect) : bool :=
  match e with clearInterval => true | _ => false end.

(** ['.' + file.name.split('.').pop()?.toLowerCase()] *)
Definition fileExtension (file : File) : string :=
  "." ++ match option_map Js.toLowerCase (Js.pop (Js.split "." (name file))) with
         | Some e => e
         | None => "undefined"
         end.

Section Component.

Variable props : FileUploadProps.

Definition handleFileSelect (file : File) : Handler State Effect unit :=
  if size file >? maxSize props * 1024 * 1024 then
    emit (toast_error ("File size must be less than "
                       ++ Js.number_toString (maxSize props) ++ "MB"))
  else if negb (Js.includes (acceptedTypes props) (fileExtension file)) then
    emit (toast_error "Please select a supported file type")
  else
    update (setSelectedFile (Some file)) ;;
    emit (toast_success "File selected successfully!").

(** The option object [handleUpload] passes to [uploadDataset]. *)
Definition upload_options : Options :=
  [ ("quality_mode", Js.VString (qualityMode props));
    ("remove_duplicates", Js.VBool true);
    ("normalize_format", Js.VBool true);
    ("target_format", Js.VString "JPEG") ].

(** [handleUpload] up to its [await]: the request is on its way. *)
Definition handleUpload : Handler State Effect unit :=
  fun s =>
    match selectedFile s with
    | None => ret tt s
    | Some file =>
        (update (setUploading true) ;;
         update (setUploadProgress (fun _ => 0)) ;;
         emit (toast_loading "Uploading dataset...") ;;
         emit (setInterval 200) ;;
         emit (post (uploadDataset file upload_options))) s
    end.

(** One firing of the simulated-progress interval. *)
Definition progressTick : Handler State Effect unit :=
  update (setUploadProgress (fun prev => Z.min (prev + 10) 90)).

(** [handleUpload] after its [await]: the [try] tail or the [catch],
    then the [finally]. *)
Definition handleUpload_settled (r : UploadResponse + Axios.Error)
  : Handler State Effect unit :=
  match r with
  | inl resp =>
      emit clearInterval ;;
      update (setUploadProgress (fun _ => 100)) ;;
      emit toast_dismiss ;;
      emit (toast_success "Upload successful! Processing started.") ;;
      when (onUploadSuccess props) (emit (call_onUploadSuccess resp))
  | inr err =>
      let errorMessage :=
        Js.or_else (Axios.response_detail err) "Upload failed. Please try again." in
      emit toast_dismiss ;;
      emit (toast_error errorMessage) ;;
      when (onUploadError props) (emit (call_onUploadError errorMessage))
  end ;;
  update (setUploading false) ;;
  update (setUploadProgress (fun _ => 0)).

Definition clearFile : Handler State Effect unit :=
  update (setSelectedFile None) ;; emit clear_input.

(** What can happen to a mounted component.  The upload button is
    rendered only while a file is selected and no upload is running,
    the clear button only while no upload is running. *)
Inductive Event : Type :=
| Select (file : File)                       (* file picker or drop *)
| ClickUpload
| ProgressTick
| Settled (r : UploadResponse + Axios.Error)
| ClickClear.

Definition handle (ev : Event) : Handler State Effect unit :=
  match ev with
  | Select file => handleFileSelect file
  | ClickUpload =>
      fun s => if uploading s then ret tt s else handleUpload s
  | ProgressTick => progressTick
  | Settled r => handleUpload_settled r
  | ClickClear =>
      fun s =>
        match selectedFile s with
        | Some _ => if uploading s then ret tt s else clearFile s
        | None => ret tt s
        end
  end.

(** The component's state and effect log after a sequence of events. *)
Fixpoint run (evs : list Event) : Handler State Effect unit :=
  match evs with
  | [] => ret tt
  | ev :: rest => handle ev ;; run rest
  end.


(** What local validation lets through. *)
Definition validated (file : File) : bool :=
  (size file <=? maxSize props * 1024 * 1024)
  && Js.includes (acceptedTypes props) (fileExtension file).

(** Whatever is selected has passed validation. *)
Definition selection_validated (s : State) : Prop :=
  forall f, selectedFile s = Some f -> validated f = true.

(** Every request in a log carries a validated file and the option
    object of [handleUpload]. *)
Definition posts_validated (l : list Effect) : Prop :=
  forall req, In (post req) l ->
    validated (body_file req) = true
    /\ req = uploadDataset (body_file req) upload_options.

End Component.

(** A dot followed by a dot-free string: the shape of every
    [fileExtension]. *)
Definition extension_shaped (e : string) : bool :=
  match e with
  | String c rest => Ascii.eqb c "." && Js.free_of "." rest
  | EmptyString => false
  end.

(** Every string of that shape that occurs in the default [acceptedTypes]:
    what the default type check lets through. *)
Definition default_passing : list string :=
  [ "."; ".z"; ".zi"; ".zip"; ".zip,";
    ".j"; ".jp"; ".jpg"; ".jpg,"; ".jpe"; ".jpeg"; ".jpeg,";
    ".p"; ".pn"; ".png"; ".png,";
    ".b"; ".bm"; ".bmp"; ".bmp,";
    ".t"; ".ti"; ".tif"; ".tiff"; ".tiff,";
    ".w"; ".we"; ".web"; ".webp" ].

(** The last file of [files] that passes [validated], if any. *)
Definition last_validated (props : FileUploadProps) (files : list File) : option File :=
  find (validated props) (rev files).

(** The extensions the default [acceptedTypes] lists. *)
Definition accepted_set : list string :=
  [".zip"; ".jpg"; ".jpeg"; ".png"; ".bmp"; ".tiff"; ".webp"].

(** The props the System page passes ([maxSize={1024}], a quality mode,
    both callbacks). *)
Definition system_props (mode : string) : FileUploadProps :=
  {| onUploadSuccess := true; onUploadError := true;
     acceptedTypes_prop := None; maxSize_prop := Some 1024;
     qualityMode_prop := Some mode |}.

End FileUpload.

(** ** hooks/usePolling.ts *)

Module UsePolling.

Record UsePollingOptions : Type := {
  interval : Z;                    (* milliseconds *)
  enabled_opt : option bool;
  immediate_opt : option bool
}.

Definition enabled (o : UsePollingOptions) : bool :=
  match enabled_opt o with Some b => b | None => true end.

Definition immediate (o : UsePollingOptions) : bool :=
  match immediate_opt o with Some b => b | None => true end.

(** The dependency array [[interval, enabled, immediate]]. *)
Definition Deps : Type := (Z * bool * bool)%type.

Definition deps_of (o : UsePollingOptions) : Deps :=
  (interval o, enabled o, immediate o).

Definition Deps_eqb (a b : Deps) : bool :=
  let '(i1, e1, m1) := a in
  let '(i2, e2, m2) := b in
  (i1 =? i2) && Bool.eqb e1 e2 && Bool.eqb m1 m2.

(** The hook instance of one mounted component, with the part of the
    window it touches.  Timer ids are positive, hence truthy. *)
Record Hook : Type := {
  intervalRef : option positive;   (* [intervalRef.current] *)
  timers : list positive;          (* live interval timers of the window *)
  next_timer : positive;           (* the id [window.setInterval] returns next *)
  last_deps : option Deps;         (* dependencies of the effect run last *)
  calls : nat                      (* invocations of [savedCallback.current] *)
}.

Definition initial : Hook :=
  {| intervalRef := None; timers := []; next_timer := 1%positive;
     last_deps := None; calls := 0 |}.

(** [tick]: one invocation of the saved callback. *)
Definition tick (h : Hook) : Hook :=
  {| intervalRef := intervalRef h; timers := timers h;
     next_timer := next_timer h; last_deps := last_deps h;
     calls := S (calls h) |}.

Definition window_clearInterval (t : positive) (h : Hook) : Hook :=
  {| intervalRef := intervalRef h;
     timers := filter (fun t' => negb (Pos.eqb t' t)) (timers h);
     next_timer := next_timer h; last_deps := last_deps h;
     calls := calls h |}.

(** [intervalRef.current = window.setInterval(tick, interval)] *)
Definition set_interval (h : Hook) : Hook :=
  {| intervalRef := Some (next_timer h);
     timers := next_timer h :: timers h;
     next_timer := Pos.succ (next_timer h); last_deps := last_deps h;
     calls := calls h |}.

Definition clear_ref (h : Hook) : Hook :=
  {| intervalRef := None; timers := timers h;
     next_timer := next_timer h; last_deps := last_deps h;
     calls := calls h |}.

(** The body shared by [stop] and by the effect's cleanup. *)
Definition stop (h : Hook) : Hook :=
  match intervalRef h with
  | Some t => clear_ref (window_clearInterval t h)
  | None => h
  end.

Definition cleanup : Hook -> Hook := stop.

(** The body of the polling effect. *)
Definition effect (o : UsePollingOptions) (h : Hook) : Hook :=
  if negb (enabled o) then h
  else
    let h1 := if immediate o then tick h else h in
    let h2 := match intervalRef h1 with
              | Some t => window_clearInterval t h1
              | None => h1
              end in
    set_interval h2.

(** The effect returns a cleanup only when it ran with [enabled]. *)
Definition has_cleanup (d : option Deps) : bool :=
  match d with
  | Some (_, e, _) => e
  | None => false
  end.

Definition set_deps (d : Deps) (h : Hook) : Hook :=
  {| intervalRef := intervalRef h; timers := timers h;
     next_timer := next_timer h; last_deps := Some d;
     calls := calls h |}.

(** Committing a render with options [o]: when a dependency changed (or
    on mount) the previous cleanup runs, then the effect. *)
Definition render (o : UsePollingOptions) (h : Hook) : Hook :=
  let same := match last_deps h with
              | Some d => Deps_eqb d (deps_of o)
              | None => false
              end in
  if same then h
  else
    let h1 := if has_cleanup (last_deps h) then cleanup h else h in
    set_deps (deps_of o) (effect o h1).

(** The window fires interval timer [t]: its callback runs only while the
    timer is live. *)
Definition fire (t : positive) (h : Hook) : Hook :=
  if existsb (Pos.eqb t) (timers h) then tick h else h.

(** What can happen to the driver on its own. *)
Inductive Action : Type :=
| Render (o : UsePollingOptions)
| Fire (t : positive)
| Stop.

Definition act (a : Action) (h : Hook) : Hook :=
  match a with
  | Render o => render o h
  | Fire t => fire t h
  | Stop => stop h
  end.

Definition run (acts : list Action) (h : Hook) : Hook :=
  fold_left (fun h a => act a h) acts h.



(** Every live timer is the one [intervalRef] holds. *)
Definition owned (h : Hook) : Prop :=
  timers h = match intervalRef h with Some t => [t] | None => [] end.

Definition is_Stop (a : Action) : bool :=
  match a with Stop => true | _ => false end.

(** A timer is held whenever the effect last ran with [enabled]. *)
Definition armed (h : Hook) : Prop :=
  has_cleanup (last_deps h) = true -> exists t, intervalRef h = Some t.

(** Every live timer id was handed out before [next_timer]. *)
Definition fresh (h : Hook) : Prop :=
  Forall (fun t => (t < next_timer h)%positive) (timers h).

(** The driver holds no timer. *)
Definition stopped (h : Hook) : Prop :=
  timers h = [] /\ intervalRef h = None.

(** The hook's invariant: the only live timer is the one in
    [intervalRef], and there is none unless the effect last ran with
    [enabled]. *)
Definition consistent (h : Hook) : Prop :=
  owned h /\ (has_cleanup (last_deps h) = false -> intervalRef h = None).

End UsePolling.

(** ** components/JobStatusTracker.tsx *)

Module JobStatusTracker.
Import Api.

(** [onComplete] and [onError] are optional callbacks, recorded by
    whether they are supplied: calling one is an [Effect]. *)
Record JobStatusTrackerProps : Type := {
  jobId : string;
  onComplete : bool;
  onError : bool;
  autoStart_prop : option bool
}.

Definition autoStart (p : JobStatusTrackerProps) : bool :=
  match autoStart_prop p with Some b => b | None => true end.

Record State : Type := {
  job : option JobStatus;
  error : option string;
  isPolling : bool
}.

Definition setJob (j : option JobStatus) (s : State) : State :=
  {| job := j; error := error s; isPolling := isPolling s |}.

Definition setError (e : option string) (s : State) : State :=
  {| job := job s; error := e; isPolling := isPolling s |}.

Definition setIsPolling (b : bool) (s : State) : State :=
  {| job := job s; error := error s; isPolling := b |}.

Inductive Effect : Type :=
| toast_success (msg : string)
| toast_error (msg : string)
| console_error (err : Axios.Error)
| call_onComplete (snapshot : JobStatus)
| call_onError (msg : string)
| window_open (url : string).

Definition is_onComplete (e : Effect) : bool :=
  match e with call_onComplete _ => true | _ => false end.


Definition is_toast (e : Effect) : bool :=
  match e with toast_success _ | toast_error _ => true | _ => false end.

Definition terminal (st : Status) : bool :=
  Status_eqb st completed || Status_eqb st failed.

(** A snapshot with the optional fields left out. *)
Definition snapshot (id : string) (st : Status) (p : Q) (msg : string) : JobStatus :=
  {| job_id := id; status := st; progress := p; message := msg;
     download_url := None; download_ready := None; dataset_info := None |}.

(** The contract the server's snapshots are meant to keep. *)
Definition in_range (j : JobStatus) : Prop :=
  (0 <= progress j <= 100)%Q
  /\ (status j = completed -> (progress j == 100)%Q).

Definition is_404 (err : Axios.Error) : bool :=
  match Axios.response_status err with
  | Some code => code =? 404
  | None => false
  end.

(** Sample data: a tracker with both callbacks, the snapshots of a job
    that is uploaded, processed and completed, and two rejected
    fetches. *)
Definition sample_props : JobStatusTrackerProps :=
  {| jobId := "job-1"; onComplete := true; onError := true;
     autoStart_prop := None |}.

Definition sample_completed : JobStatus :=
  {| job_id := "job-1"; status := completed; progress := 100;
     message := "done"; download_url := Some "/api/v1/download/job-1";
     download_ready := Some true; dataset_info := None |}.


Definition network_error : Axios.Error := {| Axios.response := None |}.

Section Component.

Variable env : option string.   (* [process.env.REACT_APP_API_URL] *)
Variable props : JobStatusTrackerProps.

(** [fetchJobStatus] after its [await]: the rest of the [try] block on
    a response, the [catch] block on a rejected request. *)
Definition fetchJobStatus_settled (r : JobStatus + Axios.Error)
  : Handler State Effect unit :=
  match r with
  | inl status_ =>
      update (setJob (Some status_)) ;;
      update (setError None) ;;
      when (Status_eqb (status status_) completed)
        (update (setIsPolling false) ;;
         emit (toast_success "Dataset processing completed! ðŸŽ‰") ;;
         when (onComplete props) (emit (call_onComplete status_))) ;;
      when (Status_eqb (status status_) failed)
        (update (setIsPolling false) ;;
         emit (toast_error "Dataset processing failed") ;;
         when (onError props)
           (emit (call_onError (Js.or_else (Some (message status_)) "Job failed"))))
  | inr err =>
      emit (console_error err) ;;
      update (setError (Some (Js.or_else (Axios.response_detail err)
                                         "Failed to fetch job status"))) ;;
      when (is_404 err)
        (update (setIsPolling false) ;;
         when (onError props) (emit (call_onError "Job not found")))
  end.

Definition handleDownload : Handler State Effect unit :=
  fun s =>
    match job s with
    | Some j =>
        match download_url j with
        | Some u =>
            if String.eqb u "" then ret tt s
            else (emit (window_open (getDownloadUrl env (jobId props))) ;;
                  emit (toast_success "Download started!")) s
        | None => ret tt s
        end
    | None => ret tt s
    end.

(** The options the tracker hands to [usePolling] on each render. *)
Definition polling_options (s : State) : UsePolling.UsePollingOptions :=
  {| UsePolling.interval := 2000;
     UsePolling.enabled_opt := Some (isPolling s);
     UsePolling.immediate_opt := Some true |}.

(** One tracking session: the component state, its polling hook, how
    many dispatched fetches have settled, and the effects so far. *)
Record Session : Type := {
  state : State;
  hook : UsePolling.Hook;
  settled : nat;
  log : list Effect
}.

(** Polls dispatched so far: each invocation of the saved callback
    starts one [getJobStatus] request. *)
Definition dispatched (x : Session) : nat := UsePolling.calls (hook x).

Definition in_flight (x : Session) : nat := dispatched x - settled x.

(** A state update re-renders the component; the render is committed
    (cleanup, then effect) before the next event is handled. *)
Definition render (x : Session) : Session :=
  {| state := state x;
     hook := UsePolling.render (polling_options (state x)) (hook x);
     settled := settled x;
     log := log x |}.

Definition mount : Session :=
  render {| state := {| job := None; error := None;
                        isPolling := autoStart props |};
            hook := UsePolling.initial;
            settled := 0;
            log := [] |}.

(** A dispatched fetch settles with [r]: the continuation of
    [fetchJobStatus] runs, then the component re-renders. *)
Definition settle (r : JobStatus + Axios.Error) (x : Session) : Session :=
  let '(_, s', l) := fetchJobStatus_settled r (state x) in
  render {| state := s'; hook := hook x;
            settled := S (settled x);
            log := (log x ++ l)%list |}.

(** [handleStop]: [setIsPolling(false); stop();], then the re-render. *)
Definition handleStop (x : Session) : Session :=
  render {| state := setIsPolling false (state x);
            hook := UsePolling.stop (hook x);
            settled := settled x;
            log := log x |}.

Definition fire (t : positive) (x : Session) : Session :=
  {| state := state x; hook := UsePolling.fire t (hook x);
     settled := settled x; log := log x |}.

(** The stop button is rendered only with a job on screen and while
    polling. *)
Definition stop_button_rendered (s : State) : bool :=
  match job s with Some _ => isPolling s | None => false end.

Inductive Event : Type :=
| TimerFires (t : positive)
| Settles (r : JobStatus + Axios.Error)
| ClickStop.

Definition step (ev : Event) (x : Session) : Session :=
  match ev with
  | TimerFires t => fire t x
  | Settles r => if (settled x <? dispatched x)%nat then settle r x else x
  | ClickStop =>
      if stop_button_rendered (state x) then handleStop x else x
  end.

Definition run (evs : list Event) (x : Session) : Session :=
  fold_left (fun x ev => step ev x) evs x.

(** The session a mounted tracker is in after the events [evs]. *)
Definition reach (evs : list Event) : Session := run evs mount.

(** Sample run: the first poll answers [uploaded], the timer fires, the
    second poll answers [processing] at 80, the timer fires again. *)
Definition sample_run : list Event :=
  [ Settles (inl (snapshot "job-1" uploaded 0 "queued"));
    TimerFires 1;
    Settles (inl (snapshot "job-1" processing 80 "cleaning"));
    TimerFires 1 ].

(** The session's invariant: the hook is consistent and its effect
    last ran with the options of the current state. *)
Definition synced (x : Session) : Prop :=
  UsePolling.consistent (hook x)
  /\ UsePolling.last_deps (hook x)
     = Some (UsePolling.deps_of (polling_options (state x))).

(** How many completed snapshots the events [evs] apply from session [x]:
    the answered fetches among them that were in flight and whose state is
    completed. *)
Fixpoint completed_applied (evs : list Event) (x : Session) : nat :=
  match evs with
  | [] => 0
  | ev :: rest =>
      (match ev with
       | Settles (inl b) =>
           if (settled x <? dispatched x)%nat
              && Status_eqb (status b) completed
           then 1 else 0
       | _ => 0
       end + completed_applied rest (step ev x))%nat
  end.

(** The snapshots a run of events delivers to the tracker. *)
Fixpoint responses (evs : list Event) : list JobStatus :=
  match evs with
  | [] => []
  | Settles (inl j) :: rest => j :: responses rest
  | _ :: rest => responses rest
  end.

End Component.

(** [if (x)] on an optional string. *)
Definition truthy (o : option string) : bool :=
  match o with
  | Some s => negb (String.eqb s "")
  | None => false
  end.

Inductive Icon : Type :=
| AlertCircle | CheckCircle | XCircle | Loader | Clock | Activity.

(** [getStatusIcon]: the icon and its class. *)
Definition getStatusIcon (s : State) : Icon * string :=
  if truthy (error s) then (AlertCircle, "w-6 h-6 text-red-500")
  else
    match option_map status (job s) with
    | Some completed => (CheckCircle, "w-6 h-6 text-green-500")
    | Some failed => (XCircle, "w-6 h-6 text-red-500")
    | Some processing => (Loader, "w-6 h-6 text-blue-500 animate-spin")
    | Some uploaded => (Clock, "w-6 h-6 text-yellow-500")
    | None => (Activity, "w-6 h-6 text-gray-400")
    end.

Definition getStatusColor (s : State) : string :=
  if truthy (error s) then "text-red-600 bg-red-50 border-red-200"
  else
    match option_map status (job s) with
    | Some completed => "text-green-600 bg-green-50 border-green-200"
    | Some failed => "text-red-600 bg-red-50 border-red-200"
    | Some processing => "text-blue-600 bg-blue-50 border-blue-200"
    | Some uploaded => "text-yellow-600 bg-yellow-50 border-yellow-200"
    | None => "text-gray-600 bg-gray-50 border-gray-200"
    end.

(** Which of its three cards the component returns. *)
Inductive View : Type :=
| ErrorCard (msg : option string)
| LoadingCard
| StatusCard (j : JobStatus).

Definition view (s : State) : View :=
  match job s with
  | None => if truthy (error s) then ErrorCard (error s) else LoadingCard
  | Some j => StatusCard j
  end.

(** The download button of the status card. *)
Definition download_button_rendered (s : State) : bool :=
  match job s with
  | Some j => Status_eqb (status j) completed && truthy (download_url j)
  | None => false
  end.

End JobStatusTracker.

(** ** pages/System.tsx *)

Module SystemPage.
Import Api.

Record QualityMode : Type := {
  label : string;
  value : string;
  description : string;
  icon : string;
  retention : string
}.

Definition qualityModes : list QualityMode :=
  [ {| label := "Strict"; value := "strict";
       description := "Removes 15-25% of images. Best for high-precision applications.";
       icon := "🔴"; retention := "75-85%" |};
    {| label := "Balanced"; value := "balanced";
       description := "Removes 5-15% of images. Good balance for most applications.";
       icon := "🟡"; retention := "85-95%" |};
    {| label := "Lenient"; value := "lenient";
       description := "Removes 1-5% of images. Keeps most data for training.";
       icon := "🟢"; retention := "95-99%" |};
    {| label := "Custom"; value := "custom";
       description := "Use your own quality parameters for fine-tuned control.";
       icon := "⚙️"; retention := "Variable" |} ].

Record State : Type := {
  uploadedJob : option FileUpload.UploadResponse;
  currentJobStatus : option JobStatus;
  showUploadForm : bool;
  checkingStatus : bool;
  selectedQualityMode : string;
  showQualitySelector : bool
}.

Definition initial : State :=
  {| uploadedJob := None; currentJobStatus := None; showUploadForm := true;
     checkingStatus := false; selectedQualityMode := "balanced";
     showQualitySelector := false |}.

Definition setUploadedJob (j : option FileUpload.UploadResponse) (s : State) : State :=
  {| uploadedJob := j; currentJobStatus := currentJobStatus s;
     showUploadForm := showUploadForm s; checkingStatus := checkingStatus s;
     selectedQualityMode := selectedQualityMode s;
     showQualitySelector := showQualitySelector s |}.

Definition setCurrentJobStatus (j : option JobStatus) (s : State) : State :=
  {| uploadedJob := uploadedJob s; currentJobStatus := j;
     showUploadForm := showUploadForm s; checkingStatus := checkingStatus s;
     selectedQualityMode := selectedQualityMode s;
     showQualitySelector := showQualitySelector s |}.

Definition setShowUploadForm (b : bool) (s : State) : State :=
  {| uploadedJob := uploadedJob s; currentJobStatus := currentJobStatus s;
     showUploadForm := b; checkingStatus := checkingStatus s;
     selectedQualityMode := selectedQualityMode s;
     showQualitySelector := showQualitySelector s |}.

Definition setCheckingStatus (b : bool) (s : State) : State :=
  {| uploadedJob := uploadedJob s; currentJobStatus := currentJobStatus s;
     showUploadForm := showUploadForm s; checkingStatus := b;
     selectedQualityMode := selectedQualityMode s;
     showQualitySelector := showQualitySelector s |}.

Definition setSelectedQualityMode (m : string) (s : State) : State :=
  {| uploadedJob := uploadedJob s; currentJobStatus := currentJobStatus s;
     showUploadForm := showUploadForm s; checkingStatus := checkingStatus s;
     selectedQualityMode := m;
     showQualitySelector := showQualitySelector s |}.

Definition setShowQualitySelector (b : bool) (s : State) : State :=
  {| uploadedJob := uploadedJob s; currentJobStatus := currentJobStatus s;
     showUploadForm := showUploadForm s; checkingStatus := checkingStatus s;
     selectedQualityMode := selectedQualityMode s;
     showQualitySelector := b |}.

Inductive Effect : Type :=
| toast_success (msg : string)
| toast_error (msg : string)
| toast_loading (msg : string)
| console_log (msg : string)
| console_error (msg : string)
| get_status (jobId : string)         (* [apiService.getJobStatus] *)
| window_open (url : string).

Definition is_toast (e : Effect) : bool :=
  match e with
  | toast_success _ | toast_error _ | toast_loading _ => true
  | _ => false
  end.

Definition is_get_status (e : Effect) : bool :=
  match e with get_status _ => true | _ => false end.

Definition Status_toString (st : Status) : string :=
  match st with
  | uploaded => "uploaded"
  | processing => "processing"
  | completed => "completed"
  | failed => "failed"
  end.

Definition truthy (o : option string) : bool :=
  match o with
  | Some s => negb (String.eqb s "")
  | None => false
  end.

Definition handleUploadSuccess (response : FileUpload.UploadResponse)
  : Handler State Effect unit :=
  update (setUploadedJob (Some response)) ;;
  update (setShowUploadForm false) ;;
  update (setCurrentJobStatus None) ;;
  update (setSelectedQualityMode
            (Js.or_else (Some (FileUpload.quality_mode response)) "balanced")) ;;
  emit (console_log "Upload successful:").

Definition handleUploadError (error : string) : Handler State Effect unit :=
  emit (console_error "Upload failed:").

Definition startNewUpload : Handler State Effect unit :=
  update (setUploadedJob None) ;;
  update (setCurrentJobStatus None) ;;
  update (setShowUploadForm true) ;;
  update (setSelectedQualityMode "balanced") ;;
  update (setShowQualitySelector false).

Definition handleQualityModeChange (mode : string) : Handler State Effect unit :=
  update (setSelectedQualityMode mode) ;;
  emit (toast_success ("Quality mode changed to " ++ mode)).

(** [handleCheckForDownload] up to its [await]. *)
Definition handleCheckForDownload : Handler State Effect unit :=
  fun s =>
    match uploadedJob s with
    | None => ret tt s
    | Some j =>
        (update (setCheckingStatus true) ;;
         emit (get_status (FileUpload.job_id j))) s
    end.

(** [handleCheckForDownload] after its [await]: the rest of the [try] or
    the [catch], then the [finally]. *)
Definition handleCheckForDownload_settled (r : JobStatus + Axios.Error)
  : Handler State Effect unit :=
  match r with
  | inl status_ =>
      update (setCurrentJobStatus (Some status_)) ;;
      if Status_eqb (status status_) completed && truthy (download_url status_) then
        emit (toast_success "Your dataset is ready for download! 🎉")
      else if Status_eqb (status status_) failed then
        emit (toast_error ("Processing failed: " ++ message status_))
      else
        emit (toast_loading
                ("Status: " ++ Status_toString (status status_) ++ " ("
                 ++ Js.number_toString (Js.Math_round (progress status_))
                 ++ "% complete)"))
  | inr _ =>
      emit (toast_error "Could not check status. Please try again later.") ;;
      emit (console_error "Status check error:")
  end ;;
  update (setCheckingStatus false).

(** Whether [m] is the [value] of a registry entry. *)
Definition known_mode (m : string) : bool :=
  existsb (fun mode => String.eqb (value mode) m) qualityModes.

(** [qualityModes.find(mode => mode.value === selectedQualityMode)] *)
Definition selectedMode (s : State) : option QualityMode :=
  find (fun mode => String.eqb (value mode) (selectedQualityMode s)) qualityModes.

(** The download button of the status card, and its click handler. *)
Definition download_button_rendered (s : State) : bool :=
  negb (showUploadForm s) &&
  match currentJobStatus s with
  | Some j => Status_eqb (status j) completed && truthy (download_url j)
  | None => false
  end.

(** Sample data: the acknowledgement of an upload that names no quality
    mode. *)
Definition sample_response (id : string) : FileUpload.UploadResponse :=
  {| FileUpload.success := true; FileUpload.job_id := id;
     FileUpload.message := "Dataset uploaded"; FileUpload.quality_mode := "";
     FileUpload.quality_description := "";
     FileUpload.expected_retention_rate := "85-95%";
     FileUpload.status_url := ""; FileUpload.estimated_time := "2-5 minutes";
     FileUpload.download_url := None |}.

(** The upload form is shown exactly when no upload response is held. *)
Definition form_shown_without_job (s : State) : Prop :=
  showUploadForm s = match uploadedJob s with None => true | Some _ => false end.

Section Page.

Variable env : option string.   (* [process.env.REACT_APP_API_URL] *)

Definition download_click : Handler State Effect unit :=
  fun s =>
    match currentJobStatus s with
    | Some j =>
        (emit (window_open (getDownloadUrl env (job_id j))) ;;
         emit (toast_success "Download started! 📥")) s
    | None => ret tt s
    end.

(** What can happen to the page; each click is possible only while its
    control is rendered. *)
Inductive Event : Type :=
| UploadSucceeded (response : FileUpload.UploadResponse)
| UploadFailed (error : string)
| PickMode (mode : QualityMode)      (* a card of the upload form *)
| ToggleSelector                     (* the change-quality-mode button *)
| ChangeMode (mode : QualityMode)    (* a card of the selector *)
| ClickCheck
| CheckSettled (r : JobStatus + Axios.Error)
| ClickStartNew
| ClickDownload.

Definition in_registry (mode : QualityMode) : bool := known_mode (value mode).

Definition handle (ev : Event) : Handler State Effect unit :=
  fun s =>
    match ev with
    | UploadSucceeded response => handleUploadSuccess response s
    | UploadFailed error => handleUploadError error s
    | PickMode mode =>
        if showUploadForm s && in_registry mode
        then update (setSelectedQualityMode (value mode)) s
        else ret tt s
    | ToggleSelector =>
        if showUploadForm s then ret tt s
        else update (setShowQualitySelector (negb (showQualitySelector s))) s
    | ChangeMode mode =>
        if negb (showUploadForm s) && showQualitySelector s && in_registry mode
        then (handleQualityModeChange (value mode) ;;
              update (setShowQualitySelector false)) s
        else ret tt s
    | ClickCheck =>
        if showUploadForm s || checkingStatus s then ret tt s
        else handleCheckForDownload s
    | CheckSettled r => handleCheckForDownload_settled r s
    | ClickStartNew =>
        if showUploadForm s then ret tt s else startNewUpload s
    | ClickDownload =>
        if download_button_rendered s then download_click s else ret tt s
    end.

(** The page's state and effect log after a sequence of events. *)
Fixpoint run (evs : list Event) : Handler State Effect unit :=
  match evs with
  | [] => ret tt
  | ev :: rest => handle ev ;; run rest
  end.

(** The job identifiers of the upload responses among [evs]. *)
Fixpoint uploaded_ids (evs : list Event) : list string :=
  match evs with
  | [] => []
  | UploadSucceeded response :: rest => FileUpload.job_id response :: uploaded_ids rest
  | _ :: rest => uploaded_ids rest
  end.

(** Every upload response among [evs] names a registry mode, or none. *)
Fixpoint modes_known (evs : list Event) : bool :=
  match evs with
  | [] => true
  | UploadSucceeded response :: rest =>
      (String.eqb (FileUpload.quality_mode response) ""
       || known_mode (FileUpload.quality_mode response))
      && modes_known rest
  | _ :: rest => modes_known rest
  end.

End Page.

End SystemPage.

(** * Properties *)

(** ** Upload validation and submission *)

Module FileUploadFacts.
Import Api FileUpload.

Lemma split_from_nonempty sep cur s : Js.split_from sep cur s <> [].
Proof.
  revert cur; induction s as [|c rest IH]; intros cur; simpl.
  - discriminate.
  - destruct (Ascii.eqb c sep); [discriminate | apply IH].
Qed.

(** [split] never returns the empty array, so [pop()] is never
    [undefined] and the optional chaining in [fileExtension] is idle. *)
Lemma pop_split_defined sep s : exists e, Js.pop (Js.split sep s) = Some e.
Proof.
  unfold Js.split.
  assert (H : forall xs, xs <> [] -> exists e, Js.pop xs = Some e).
  { induction xs as [|x [|y ys] IH]; intros Hne.
    - contradiction.
    - now exists x.
    - apply IH; discriminate. }
  apply H, split_from_nonempty.
Qed.

Section Invariant.

Variable props : FileUploadProps.

Local Abbreviation selection_validated := (selection_validated props).
Local Abbreviation posts_validated := (posts_validated props).

Lemma handleFileSelect_cases file s :
  (validated props file = false /\
   exec (handleFileSelect props file) s = s /\
   filter is_post (effects (handleFileSelect props file) s) = []) \/
  (validated props file = true /\
   exec (handleFileSelect props file) s = setSelectedFile (Some file) s /\
   effects (handleFileSelect props file) s
     = [toast_success "File selected successfully!"]).
Proof.
  unfold validated, handleFileSelect, exec, effects.
  rewrite Z.gtb_ltb, Z.leb_antisym.
  destruct (maxSize props * 1024 * 1024 <? size file); simpl.
  - left; auto.
  - destruct (Js.includes (acceptedTypes props) (fileExtension file)); simpl;
      [right | left]; auto.
Qed.

Lemma handle_preserves ev s :
  selection_validated s ->
  selection_validated (exec (handle props ev) s)
  /\ posts_validated (effects (handle props ev) s).
Proof.
  intros Hs. destruct ev as [file| | |r|]; simpl.
  - destruct (handleFileSelect_cases file s) as [(_ & He & Hp)|(Hv & He & Hl)].
    + rewrite He. split; [exact Hs|].
      intros req Hin.
      assert (Hf : In (post req) (filter is_post (effects (handleFileSelect props file) s)))
        by (apply filter_In; split; [exact Hin | reflexivity]).
      rewrite Hp in Hf. destruct Hf.
    + rewrite He, Hl. split.
      * intros f Hf. simpl in Hf. now inversion Hf; subst.
      * intros req [Hin|[]]. discriminate.
  - unfold exec, effects, handleUpload.
    destruct (uploading s); simpl; [split; [exact Hs | intros ? []]|].
    destruct (selectedFile s) as [file|] eqn:Hsel; simpl.
    + split.
      * intros f Hf. simpl in Hf. now apply Hs.
      * intros req [H|[H|[H|[]]]]; try discriminate.
        inversion H; subst; simpl. split; [now apply Hs | reflexivity].
    + split; [exact Hs | intros ? []].
  - unfold exec, effects, progressTick, update; simpl.
    split; [exact Hs | intros ? []].
  - unfold exec, effects, handleUpload_settled.
    destruct r as [resp|err];
      [destruct (onUploadSuccess props) | destruct (onUploadError props)];
      simpl; (split; [intros f Hf; now apply Hs|]);
      intros req Hin; repeat (destruct Hin as [Hin|Hin]; try discriminate);
      destruct Hin.
  - unfold exec, effects.
    destruct (selectedFile s) as [file|] eqn:Hsel; simpl.
    + destruct (uploading s); simpl.
      * split; [exact Hs | intros ? []].
      * split; [intros f Hf; discriminate | intros ? [H|[]]; discriminate].
    + split; [exact Hs | intros ? []].
Qed.

Lemma run_cons ev evs s :
  exec (run props (ev :: evs)) s = exec (run props evs) (exec (handle props ev) s)
  /\ effects (run props (ev :: evs)) s
     = (effects (handle props ev) s
        ++ effects (run props evs) (exec (handle props ev) s))%list.
Proof.
  unfold exec, effects; simpl; unfold bind.
  destruct (handle props ev s) as [[[] s1] l1]; simpl.
  destruct (run props evs s1) as [[[] s2] l2]; simpl. auto.
Qed.

Lemma run_posts_validated evs : forall s,
  selection_validated s -> posts_validated (effects (run props evs) s).
Proof.
  induction evs as [|ev evs IH]; intros s Hs.
  - intros req [].
  - destruct (run_cons ev evs s) as [_ Hl]. rewrite Hl.
    destruct (handle_preserves ev Hs) as [Hs' Hp].
    intros req Hin. apply in_app_or in Hin. destruct Hin as [Hin|Hin].
    + now apply Hp.
    + now apply (IH _ Hs').
Qed.

Lemma initial_validated : selection_validated initial.
Proof. intros f Hf; discriminate. Qed.

End Invariant.

End FileUploadFacts.

Module UploadClaims.
Import Api FileUpload FileUploadFacts.

(** The extension test is a substring test on the comma-separated
    [acceptedTypes] string: every listed extension passes it. *)
Lemma listed_extension_selected props file s :
  acceptedTypes_prop props = None ->
  size file <= maxSize props * 1024 * 1024 ->
  In (fileExtension file) accepted_set ->
  exec (handleFileSelect props file) s = setSelectedFile (Some file) s
  /\ effects (handleFileSelect props file) s
     = [toast_success "File selected successfully!"].
Proof.
  intros Hacc Hsize Hext.
  destruct (handleFileSelect_cases props file s) as [(Hv & _)|(_ & H)]; [|exact H].
  exfalso. unfold validated, acceptedTypes in Hv. rewrite Hacc in Hv.
  apply Z.leb_le in Hsize. rewrite Hsize in Hv.
  rewrite andb_true_l in Hv. unfold default in Hv.
  unfold accepted_set in Hext. simpl in Hext.
  repeat (destruct Hext as [Hext|Hext];
          [rewrite <- Hext in Hv; vm_compute in Hv; discriminate|]).
  exact Hext.
Qed.

(** An extension that occurs nowhere in [acceptedTypes] is refused with
    the unsupported-type toast, and nothing is selected. *)
Lemma foreign_extension_refused props file s :
  size file <= maxSize props * 1024 * 1024 ->
  Js.includes (acceptedTypes props) (fileExtension file) = false ->
  exec (handleFileSelect props file) s = s
  /\ effects (handleFileSelect props file) s
     = [toast_error "Please select a supported file type"].
Proof.
  intros Hsize Hext. unfold handleFileSelect, exec, effects.
  rewrite Z.gtb_ltb. apply Z.ltb_ge in Hsize. rewrite Hsize, Hext. auto.
Qed.

(** C3: a payload whose size in bytes exceeds [maxSize * 1024 * 1024] is
    refused by [handleFileSelect] with the size toast and nothing else
    happens: the selection is left as it was, and no run of the component
    ever posts that payload.  In particular 2048 MB against the 1024 MB
    ceiling is refused before any request. *)
Theorem oversized_payload_rejected props file s :
  size file > maxSize props * 1024 * 1024 ->
  exec (handleFileSelect props file) s = s
  /\ effects (handleFileSelect props file) s
     = [toast_error ("File size must be less than "
                     ++ Js.number_toString (maxSize props) ++ "MB")]
  /\ (forall evs req,
        In (post req) (effects (run props evs) initial) -> body_file req <> file).
Proof.
  intros Hbig. split; [|split].
  - unfold handleFileSelect, exec.
    apply Z.gt_lt, Z.ltb_lt in Hbig. rewrite Z.gtb_ltb, Hbig. reflexivity.
  - unfold handleFileSelect, effects.
    apply Z.gt_lt, Z.ltb_lt in Hbig. rewrite Z.gtb_ltb, Hbig. reflexivity.
  - intros evs req Hin Heq.
    destruct (run_posts_validated evs (initial_validated props) req Hin) as [Hv _].
    rewrite Heq in Hv. unfold validated in Hv.
    apply andb_true_iff in Hv. destruct Hv as [Hv _].
    apply Z.leb_le in Hv. lia.
Qed.

Lemma oversized_payload_rejected_witness :
  let file := {| name := "dataset.zip"; size := 2048 * 1024 * 1024 |} in
  let props := system_props "balanced" in
  exec (handleFileSelect props file) initial = initial
  /\ effects (handleFileSelect props file) initial
     = [toast_error "File size must be less than 1024MB"]
  /\ (forall evs req,
        In (post req) (effects (run props evs) initial) -> body_file req <> file).
Proof.
  intros file props. apply (oversized_payload_rejected props file initial).
  reflexivity.
Defined.

(** C4: the file [scan.tif] has the extension [.tif], which is not in the
    accepted set, and yet [handleFileSelect] selects it and the next
    upload click posts it: the test is [acceptedTypes.includes], a
    substring test, and [.tif] occurs inside [.tiff]. *)
Theorem unlisted_extension_selected :
  let file := {| name := "scan.tif"; size := 10 |} in
  let props := system_props "balanced" in
  fileExtension file = ".tif"
  /\ ~ In (fileExtension file) accepted_set
  /\ exec (handleFileSelect props file) initial = setSelectedFile (Some file) initial
  /\ effects (handleFileSelect props file) initial
     = [toast_success "File selected successfully!"]
  /\ In (post (uploadDataset file (upload_options props)))
        (effects (run props [Select file; ClickUpload]) initial).
Proof.
  intros file props. split; [reflexivity|]. split; [|split; [|split]].
  - intros H. simpl in H.
    repeat (destruct H as [H|H]; [discriminate|]). exact H.
  - reflexivity.
  - reflexivity.
  - vm_compute. do 3 right. left. reflexivity.
Qed.

(** C10: the only request [handleUpload] makes carries exactly the entries
    [quality_mode] (the chosen mode), [remove_duplicates=true],
    [normalize_format=true] and [target_format=JPEG], and no resize entry;
    this holds of every request the component posts in any run. *)
Theorem upload_configuration_fixed props :
  let fixed_params :=
    [ ("quality_mode", qualityMode props); ("remove_duplicates", "true");
      ("normalize_format", "true"); ("target_format", "JPEG") ] in
  (forall s,
     filter is_post (effects (handleUpload props) s)
     = match selectedFile s with
       | Some file => [post {| path := "/api/v1/upload";
                               params := fixed_params;
                               body_file := file |}]
       | None => []
       end)
  /\ (forall evs req,
        In (post req) (effects (run props evs) initial) ->
        params req = fixed_params
        /\ forall k v, In (k, v) (params req) ->
             k <> "resize_images" /\ k <> "target_width" /\ k <> "target_height").
Proof.
  intros fixed_params. split.
  - intros s. unfold handleUpload, effects.
    destruct (selectedFile s) as [file|]; reflexivity.
  - intros evs req Hin.
    destruct (run_posts_validated evs (initial_validated props) req Hin) as [_ Hreq].
    assert (Hp : params req = fixed_params) by (rewrite Hreq; reflexivity).
    split; [exact Hp|].
    intros k v Hk. rewrite Hp in Hk. unfold fixed_params in Hk. simpl in Hk.
    repeat (destruct Hk as [Hk|Hk];
            [inversion Hk; subst; repeat split; discriminate|]).
    destruct Hk.
Qed.

Lemma upload_configuration_fixed_witness :
  let props := system_props "strict" in
  let file := {| name := "dataset.zip"; size := 4096 |} in
  let req := uploadDataset file (upload_options props) in
  params req = [ ("quality_mode", "strict"); ("remove_duplicates", "true");
                 ("normalize_format", "true"); ("target_format", "JPEG") ]
  /\ forall k v, In (k, v) (params req) ->
       k <> "resize_images" /\ k <> "target_width" /\ k <> "target_height".
Proof.
  intros props file req.
  apply (proj2 (upload_configuration_fixed props) [Select file; ClickUpload] req).
  vm_compute. do 3 right. left. reflexivity.
Defined.

End UploadClaims.

(** ** The interval driver *)

Module UsePollingFacts.
Import UsePolling.

Lemma Deps_eqb_eq a b : Deps_eqb a b = true <-> a = b.
Proof.
  destruct a as [[i1 e1] m1], b as [[i2 e2] m2]; unfold Deps_eqb.
  rewrite !andb_true_iff, Z.eqb_eq, !Bool.eqb_true_iff.
  split.
  - intros [[-> ->] ->]; reflexivity.
  - intros H; inversion H; auto.
Qed.

Lemma stop_stopped h : owned h -> stopped (stop h).
Proof.
  unfold owned, stopped, stop. intros Ho.
  destruct (intervalRef h) as [t|] eqn:Href; simpl.
  - rewrite Ho. simpl. rewrite Pos.eqb_refl. auto.
  - rewrite Ho, Href. auto.
Qed.

Lemma stopped_owned h : stopped h -> owned h.
Proof. unfold stopped, owned. intros [-> ->]. reflexivity. Qed.

Lemma stop_calls h : calls (stop h) = calls h.
Proof. unfold stop. destruct (intervalRef h); reflexivity. Qed.

Lemma stop_last_deps h : last_deps (stop h) = last_deps h.
Proof. unfold stop. destruct (intervalRef h); reflexivity. Qed.


Lemma fire_of_stopped t h : timers h = [] -> fire t h = h.
Proof. unfold fire. now intros ->. Qed.

Lemma consistent_stopped h :
  consistent h -> has_cleanup (last_deps h) = false -> stopped h.
Proof.
  intros [Ho Hn] Hc. specialize (Hn Hc).
  unfold stopped. split; [|exact Hn]. rewrite Ho, Hn. reflexivity.
Qed.

Lemma consistent_initial : consistent initial.
Proof. split; [reflexivity | reflexivity]. Qed.

Lemma consistent_stop h : consistent h -> consistent (stop h).
Proof.
  intros [Ho _]. destruct (stop_stopped Ho) as [Ht Hr].
  split; [apply stopped_owned; split; assumption | intros _; exact Hr].
Qed.

Lemma consistent_fire t h : consistent h -> consistent (fire t h).
Proof. unfold fire. destruct (existsb _ _); auto. Qed.

(** The hook just before the effect body runs again: the previous
    cleanup, when there is one, has released the timer. *)
Lemma before_effect_stopped h :
  consistent h -> stopped (if has_cleanup (last_deps h) then cleanup h else h).
Proof.
  intros Hc. destruct (has_cleanup (last_deps h)) eqn:Hcl.
  - apply stop_stopped, Hc.
  - now apply consistent_stopped.
Qed.

Lemma effect_of_stopped o h :
  stopped h ->
  effect o h = if enabled o
               then set_interval (if immediate o then tick h else h)
               else h.
Proof.
  intros [_ Hr]. unfold effect.
  destruct (enabled o); simpl; [|reflexivity].
  destruct (immediate o); simpl; rewrite Hr; reflexivity.
Qed.

Lemma render_changed o h :
  last_deps h <> Some (deps_of o) ->
  render o h = set_deps (deps_of o)
                 (effect o (if has_cleanup (last_deps h) then cleanup h else h)).
Proof.
  intros Hne. unfold render.
  destruct (last_deps h) as [d|] eqn:Hd; [|reflexivity].
  destruct (Deps_eqb d (deps_of o)) eqn:He; [|reflexivity].
  apply Deps_eqb_eq in He. congruence.
Qed.

Lemma render_same o h : last_deps h = Some (deps_of o) -> render o h = h.
Proof.
  intros Hd. unfold render. rewrite Hd.
  now replace (Deps_eqb (deps_of o) (deps_of o)) with true
    by (symmetry; now apply Deps_eqb_eq).
Qed.

Lemma last_deps_dec o h :
  {last_deps h = Some (deps_of o)} + {last_deps h <> Some (deps_of o)}.
Proof.
  destruct (last_deps h) as [d|]; [|right; discriminate].
  destruct (Deps_eqb d (deps_of o)) eqn:He.
  - left. apply Deps_eqb_eq in He. now subst.
  - right. intros H. inversion H; subst.
    assert (Deps_eqb (deps_of o) (deps_of o) = true) by now apply Deps_eqb_eq.
    congruence.
Qed.

Lemma render_last_deps o h : last_deps (render o h) = Some (deps_of o).
Proof.
  destruct (last_deps_dec o h) as [Hs|Hn].
  - now rewrite render_same.
  - now rewrite render_changed.
Qed.

Lemma consistent_render o h : consistent h -> consistent (render o h).
Proof.
  intros Hc. destruct (last_deps_dec o h) as [Hs|Hn].
  - now rewrite render_same.
  - rewrite render_changed by exact Hn.
    pose proof (before_effect_stopped Hc) as Hst.
    rewrite (effect_of_stopped o Hst).
    destruct Hst as [Ht Hr].
    unfold consistent, owned, deps_of.
    destruct (enabled o) eqn:He; simpl.
    + destruct (immediate o); simpl; rewrite Ht; split; [reflexivity | discriminate | reflexivity | discriminate].
    + rewrite Ht, Hr. auto.
Qed.

(** A render that leaves the driver disabled invokes nothing and leaves
    it without a timer. *)
Lemma render_disabled o h :
  consistent h -> enabled o = false ->
  stopped (render o h) /\ calls (render o h) = calls h.
Proof.
  intros Hc He. destruct (last_deps_dec o h) as [Hs|Hn].
  - rewrite render_same by exact Hs. split; [|reflexivity].
    apply consistent_stopped; [exact Hc|].
    rewrite Hs. unfold deps_of. simpl. exact He.
  - rewrite render_changed by exact Hn.
    pose proof (before_effect_stopped Hc) as Hst.
    rewrite (effect_of_stopped o Hst), He. simpl.
    split; [exact Hst|].
    destruct (has_cleanup (last_deps h)); [apply stop_calls | reflexivity].
Qed.

Lemma consistent_act a h : consistent h -> consistent (act a h).
Proof.
  destruct a; simpl;
    [apply consistent_render | apply consistent_fire | apply consistent_stop].
Qed.

Lemma consistent_run acts : forall h, consistent h -> consistent (run acts h).
Proof.
  induction acts as [|a acts IH]; intros h Hc; simpl; [exact Hc|].
  apply IH, consistent_act, Hc.
Qed.



End UsePollingFacts.

(** ** The job status tracker *)

Module TrackerFacts.
Import Api JobStatusTracker.
Import UsePollingFacts.

Section Session.

Variable env : option string.
Variable props : JobStatusTrackerProps.

Local Abbreviation settled_handler := (fetchJobStatus_settled props).

(** The state a response leaves behind. *)
Lemma response_state b s :
  exec (settled_handler (inl b)) s
  = {| job := Some b; error := None;
       isPolling := if terminal (status b) then false else isPolling s |}.
Proof.
  unfold exec, fetchJobStatus_settled, terminal.
  destruct (status b), (onComplete props), (onError props); reflexivity.
Qed.

(** The state a rejected fetch leaves behind. *)
Lemma rejection_state err s :
  exec (settled_handler (inr err)) s
  = {| job := job s;
       error := Some (Js.or_else (Axios.response_detail err)
                                 "Failed to fetch job status");
       isPolling := if is_404 err then false else isPolling s |}.
Proof.
  unfold exec, fetchJobStatus_settled.
  destruct (is_404 err), (onError props); reflexivity.
Qed.

Lemma settled_keeps_disabled r s :
  isPolling s = false -> isPolling (exec (settled_handler r) s) = false.
Proof.
  intros Hp. destruct r as [b|err].
  - rewrite response_state. simpl. now destruct (terminal (status b)).
  - rewrite rejection_state. simpl. now destruct (is_404 err).
Qed.

Lemma settle_unfold r x :
  settle props r x
  = render {| state := exec (settled_handler r) (state x);
              hook := hook x;
              settled := S (settled x);
              log := (log x ++ effects (settled_handler r) (state x))%list |}.
Proof.
  unfold settle, exec, effects.
  now destruct (fetchJobStatus_settled props r (state x)) as [[[] s'] l].
Qed.

Lemma render_state x : state (render x) = state x.
Proof. reflexivity. Qed.

Lemma render_synced x : UsePolling.consistent (hook x) -> synced (render x).
Proof.
  intros Hc. split; simpl.
  - now apply consistent_render.
  - apply render_last_deps.
Qed.

Lemma mount_synced : synced (mount props).
Proof. apply render_synced, consistent_initial. Qed.

Lemma step_synced ev x : synced x -> synced (step props ev x).
Proof.
  intros [Hc Hd]. destruct ev as [t|r|]; simpl.
  - split; simpl; [now apply consistent_fire|].
    unfold UsePolling.fire. destruct (existsb _ _); exact Hd.
  - destruct (settled x <? dispatched x)%nat; [|now split].
    rewrite settle_unfold. now apply render_synced.
  - destruct (stop_button_rendered (state x)); [|now split].
    apply render_synced. simpl. now apply consistent_stop.
Qed.

Lemma run_synced evs : forall x, synced x -> synced (run props evs x).
Proof.
  induction evs as [|ev evs IH]; intros x Hx; simpl; [exact Hx|].
  apply IH, step_synced, Hx.
Qed.

(** Rendering a state with [isPolling] off leaves the driver without a
    timer and dispatches nothing. *)
Lemma render_not_polling x :
  UsePolling.consistent (hook x) -> isPolling (state x) = false ->
  UsePolling.stopped (hook (render x)) /\ dispatched (render x) = dispatched x.
Proof.
  intros Hc Hp. unfold dispatched. simpl.
  apply render_disabled; [exact Hc|].
  unfold UsePolling.enabled. simpl. exact Hp.
Qed.

Lemma synced_not_polling x :
  synced x -> isPolling (state x) = false -> UsePolling.stopped (hook x).
Proof.
  intros [Hc Hd] Hp. apply consistent_stopped; [exact Hc|].
  rewrite Hd. unfold UsePolling.deps_of, UsePolling.enabled. simpl. exact Hp.
Qed.

(** Once [isPolling] is off it stays off, and no event dispatches a
    poll. *)
Lemma step_idle ev x :
  synced x -> isPolling (state x) = false ->
  isPolling (state (step props ev x)) = false
  /\ dispatched (step props ev x) = dispatched x.
Proof.
  intros Hs Hp. pose proof (synced_not_polling Hs Hp) as [Ht Hr].
  destruct Hs as [Hc Hd].
  destruct ev as [t|r|]; simpl.
  - unfold fire, dispatched. simpl. rewrite (fire_of_stopped t _ Ht). auto.
  - destruct (settled x <? dispatched x)%nat; [|auto].
    rewrite settle_unfold, render_state. simpl.
    pose proof (settled_keeps_disabled r _ Hp) as Hp'.
    split; [exact Hp'|].
    match goal with
    | |- dispatched (render ?y) = _ =>
        exact (proj2 (render_not_polling y Hc Hp'))
    end.
  - unfold stop_button_rendered. rewrite Hp.
    destruct (job (state x)); auto.
Qed.

Lemma run_idle evs : forall x,
  synced x -> isPolling (state x) = false ->
  isPolling (state (run props evs x)) = false
  /\ dispatched (run props evs x) = dispatched x.
Proof.
  induction evs as [|ev evs IH]; intros x Hs Hp; simpl; [auto|].
  destruct (step_idle ev Hs Hp) as [Hp' Hd'].
  destruct (IH _ (step_synced ev Hs) Hp') as [Hp'' Hd''].
  split; [exact Hp'' | congruence].
Qed.

(** With polling off and no fetch in flight the session is final: no
    event changes anything. *)
Lemma step_final ev x :
  synced x -> isPolling (state x) = false -> settled x = dispatched x ->
  step props ev x = x.
Proof.
  intros Hs Hp Hall. pose proof (synced_not_polling Hs Hp) as [Ht _].
  destruct ev as [t|r|]; simpl.
  - unfold fire. rewrite (fire_of_stopped t _ Ht). now destruct x.
  - rewrite Hall, Nat.ltb_irrefl. reflexivity.
  - unfold stop_button_rendered. rewrite Hp. now destruct (job (state x)).
Qed.

Lemma run_final evs x :
  synced x -> isPolling (state x) = false -> settled x = dispatched x ->
  run props evs x = x.
Proof.
  intros Hs Hp Hall. induction evs as [|ev evs IH]; simpl; [reflexivity|].
  now rewrite (step_final ev Hs Hp Hall).
Qed.

(** A settled fetch that turns [isPolling] off disables the driver for
    good. *)
Lemma settle_disables r x :
  synced x ->
  isPolling (exec (settled_handler r) (state x)) = false ->
  let x' := settle props r x in
  isPolling (state x') = false
  /\ UsePolling.stopped (hook x')
  /\ dispatched x' = dispatched x
  /\ forall evs, dispatched (run props evs x') = dispatched x'.
Proof.
  intros Hs Hoff x'. subst x'. rewrite settle_unfold.
  set (y := {| state := exec (settled_handler r) (state x); hook := hook x;
               settled := S (settled x);
               log := (log x ++ effects (settled_handler r) (state x))%list |}).
  assert (Hc : UsePolling.consistent (hook y)) by apply Hs.
  assert (Hp : isPolling (state y) = false) by exact Hoff.
  destruct (render_not_polling y Hc Hp) as [Hst Hd].
  repeat split; try apply Hst; try exact Hp; try exact Hd.
  intros evs. apply run_idle; [now apply render_synced | exact Hp].
Qed.

End Session.

End TrackerFacts.

Module TrackerClaims.
Import Api JobStatusTracker.
Import UsePollingFacts TrackerFacts.

Lemma reach_synced props evs : synced (reach props evs).
Proof. apply run_synced, mount_synced. Qed.

Lemma step_settles props r x :
  (settled x < dispatched x)%nat ->
  step props (Settles r) x = settle props r x.
Proof. intros Hin. simpl. apply Nat.ltb_lt in Hin. now rewrite Hin. Qed.

Lemma settle_log props r x :
  log (settle props r x)
  = (log x ++ effects (fetchJobStatus_settled props r) (state x))%list.
Proof. now rewrite settle_unfold. Qed.

Lemma settle_state props r x :
  state (settle props r x) = exec (fetchJobStatus_settled props r) (state x).
Proof. now rewrite settle_unfold. Qed.

Lemma step_onComplete_count props ev x :
  List.length (filter is_onComplete (log (step props ev x)))
  = (List.length (filter is_onComplete (log x))
     + if onComplete props then completed_applied props [ev] x else 0)%nat.
Proof.
  destruct ev as [t|[b|err]|]; cbn [step completed_applied].
  - cbn [fire log]. destruct (onComplete props); lia.
  - destruct (settled x <? dispatched x)%nat; cbn [andb].
    + rewrite settle_log, filter_app, length_app.
      unfold effects, fetchJobStatus_settled.
      destruct (status b), (onComplete props), (onError props); simpl; lia.
    + destruct (onComplete props); lia.
  - destruct (settled x <? dispatched x)%nat.
    + rewrite settle_log, filter_app, length_app.
      unfold effects, fetchJobStatus_settled.
      destruct (is_404 err), (onComplete props), (onError props); simpl; lia.
    + destruct (onComplete props); lia.
  - destruct (stop_button_rendered (state x)); cbn [handleStop render log];
      destruct (onComplete props); lia.
Qed.

(** The [onComplete] calls of a run are one for each completed snapshot it
    applies, when the prop is supplied, and none otherwise. *)
Lemma run_onComplete_count props evs : forall x,
  List.length (filter is_onComplete (log (run props evs x)))
  = (List.length (filter is_onComplete (log x))
     + if onComplete props then completed_applied props evs x else 0)%nat.
Proof.
  induction evs as [|ev evs IH]; intros x.
  - simpl. destruct (onComplete props); lia.
  - change (run props (ev :: evs) x) with (run props evs (step props ev x)).
    rewrite IH, step_onComplete_count.
    cbn [completed_applied]. destruct (onComplete props); lia.
Qed.

(** C1 (as the code has it): when a dispatched fetch of a mounted tracker
    settles with a snapshot whose state is completed or failed, the
    snapshot is applied, [isPolling] is off, the driver holds no timer, and
    no later event dispatches another poll.  Each applied completed snapshot
    calls [onComplete] once when the prop is supplied and not at all when
    it is not, so a session calls it as many times as it applies completed
    snapshots: once more for every fetch still in flight that later answers
    completed, and never again when the terminal answer was the only fetch
    in flight, since no later event changes the session then. *)
Theorem terminal_snapshot_stops_polling props evs b :
  terminal (status b) = true ->
  (settled (reach props evs) < dispatched (reach props evs))%nat ->
  let x := reach props evs in
  let x' := step props (Settles (inl b)) x in
  job (state x') = Some b
  /\ isPolling (state x') = false
  /\ UsePolling.stopped (hook x')
  /\ (forall evs', dispatched (run props evs' x') = dispatched x)
  /\ (in_flight x = 1%nat -> forall evs', run props evs' x' = x')
  /\ (exists l, log x' = (log x ++ l)%list
        /\ (status b = completed ->
            filter is_onComplete l
            = if onComplete props then [call_onComplete b] else []))
  /\ List.length (filter is_onComplete (log x))
     = (if onComplete props then completed_applied props evs (mount props)
        else 0%nat)
  /\ (forall evs',
        List.length (filter is_onComplete (log (run props evs' x')))
        = (List.length (filter is_onComplete (log x'))
           + if onComplete props then completed_applied props evs' x' else 0)%nat).
Proof.
  intros Hterm Hin x x'. subst x'. rewrite (step_settles props _ x Hin).
  assert (Hoff : isPolling (exec (fetchJobStatus_settled props (inl b)) (state x)) = false)
    by (rewrite response_state; simpl; now rewrite Hterm).
  destruct (settle_disables props (inl b) (reach_synced props evs) Hoff)
    as (Hp & Hst & Hd & Hrun).
  fold x in Hp, Hst, Hd, Hrun.
  split; [rewrite settle_state, response_state; reflexivity|].
  split; [exact Hp|]. split; [exact Hst|].
  split; [intros evs'; rewrite Hrun; exact Hd|].
  split.
  { intros Hone evs'. apply run_final; [|exact Hp|].
    - rewrite settle_unfold. apply render_synced, (reach_synced props evs).
    - rewrite Hd, settle_unfold. unfold in_flight in Hone. simpl. fold x. lia. }
  split.
  { eexists. split; [apply settle_log|].
    intros Hc. unfold effects, fetchJobStatus_settled. rewrite Hc.
    destruct (onComplete props); reflexivity. }
  split.
  - subst x. unfold reach. rewrite run_onComplete_count. reflexivity.
  - intros evs'. apply run_onComplete_count.
Qed.


(** C8: when a dispatched fetch is rejected with anything but HTTP status
    404, [isPolling] and the tracked snapshot are left as they were, the
    driver is untouched (same timer, nothing dispatched), the message goes
    to the [error] state, and the only effect is the console line: no
    toast, no callback. *)
Theorem transient_error_keeps_polling props evs err :
  Axios.response_status err <> Some 404 ->
  (settled (reach props evs) < dispatched (reach props evs))%nat ->
  let x := reach props evs in
  let x' := step props (Settles (inr err)) x in
  isPolling (state x') = isPolling (state x)
  /\ job (state x') = job (state x)
  /\ hook x' = hook x
  /\ error (state x')
     = Some (Js.or_else (Axios.response_detail err) "Failed to fetch job status")
  /\ log x' = (log x ++ [console_error err])%list.
Proof.
  intros Hnot Hin x x'. subst x'. rewrite (step_settles props _ x Hin).
  assert (His : is_404 err = false).
  { unfold is_404. destruct (Axios.response_status err) as [code|]; [|reflexivity].
    apply Z.eqb_neq. intros ->. now apply Hnot. }
  rewrite settle_state, rejection_state, His. simpl.
  repeat split.
  - rewrite settle_unfold. cbn [render hook state]. apply render_same.
    rewrite rejection_state, His. cbn [polling_options isPolling].
    destruct (reach_synced props evs) as [_ Hd]. exact Hd.
  - rewrite settle_log. unfold effects, fetchJobStatus_settled.
    rewrite His. reflexivity.
Qed.

Lemma terminal_snapshot_stops_polling_witness :
  let x := reach sample_props sample_run in
  let x' := step sample_props (Settles (inl sample_completed)) x in
  job (state x') = Some sample_completed
  /\ isPolling (state x') = false
  /\ UsePolling.stopped (hook x')
  /\ (forall evs', dispatched (run sample_props evs' x') = dispatched x)
  /\ (in_flight x = 1%nat -> forall evs', run sample_props evs' x' = x')
  /\ (exists l, log x' = (log x ++ l)%list
        /\ (status sample_completed = completed ->
            filter is_onComplete l
            = if onComplete sample_props
              then [call_onComplete sample_completed] else []))
  /\ List.length (filter is_onComplete (log x))
     = (if onComplete sample_props
        then completed_applied sample_props sample_run (mount sample_props)
        else 0%nat)
  /\ (forall evs',
        List.length (filter is_onComplete (log (run sample_props evs' x')))
        = (List.length (filter is_onComplete (log x'))
           + if onComplete sample_props
             then completed_applied sample_props evs' x' else 0)%nat).
Proof.
  apply (terminal_snapshot_stops_polling sample_props sample_run sample_completed).
  - reflexivity.
  - vm_compute. lia.
Defined.

(** The scenario of three polls answering uploaded at 0, processing at 45
    and completed at 100: the whole log holds one success toast and one
    [onComplete] call, polling is off, and no later event changes the
    session. *)
Example three_poll_scenario :
  let evs := [ Settles (inl (snapshot "job-1" uploaded 0 "queued"));
               TimerFires 1;
               Settles (inl (snapshot "job-1" processing 45 "cleaning"));
               TimerFires 1;
               Settles (inl sample_completed) ] in
  let x := reach sample_props evs in
  log x = [toast_success "Dataset processing completed! ðŸŽ‰";
           call_onComplete sample_completed]
  /\ isPolling (state x) = false
  /\ dispatched x = 3%nat
  /\ forall evs', run sample_props evs' x = x.
Proof.
  intros evs x. repeat split.
  intros evs'. apply run_final; [apply reach_synced | reflexivity | reflexivity].
Qed.

(** C1 fails as stated: fetches are dispatched on a fixed cadence, whether
    or not the previous one has settled, and with two in flight that both
    answer completed each answer is applied and each calls [onComplete], two
    calls in one session; and a tracker mounted without the optional prop
    applies a completed snapshot with no call at all. *)
Lemma overlapping_completed_answers :
  let evs := [ TimerFires 1;
               Settles (inl sample_completed);
               Settles (inl sample_completed) ] in
  let x := reach sample_props evs in
  let bare := {| jobId := "job-1"; onComplete := false; onError := false;
                 autoStart_prop := None |} in
  let y := reach bare [Settles (inl sample_completed)] in
  dispatched x = 2%nat
  /\ job (state x) = Some sample_completed
  /\ filter is_onComplete (log x)
     = [call_onComplete sample_completed; call_onComplete sample_completed]
  /\ job (state y) = Some sample_completed
  /\ filter is_onComplete (log y) = [].
Proof. repeat split. Qed.


Lemma transient_error_keeps_polling_witness :
  let x := reach sample_props sample_run in
  let x' := step sample_props (Settles (inr network_error)) x in
  isPolling (state x') = isPolling (state x)
  /\ job (state x') = job (state x)
  /\ hook x' = hook x
  /\ error (state x') = Some "Failed to fetch job status"
  /\ log x' = (log x ++ [console_error network_error])%list.
Proof.
  apply (transient_error_keeps_polling sample_props sample_run network_error).
  - discriminate.
  - vm_compute. lia.
Defined.

Lemma step_job props ev x j :
  job (state (step props ev x)) = Some j ->
  ev = Settles (inl j) \/ job (state x) = Some j.
Proof.
  destruct ev as [t|[b|err]|]; simpl.
  - auto.
  - destruct (settled x <? dispatched x)%nat; [|auto].
    rewrite settle_state, response_state. simpl.
    intros H; inversion H; auto.
  - destruct (settled x <? dispatched x)%nat; [|auto].
    rewrite settle_state, rejection_state. simpl. auto.
  - destruct (stop_button_rendered (state x)); auto.
Qed.

(** Whatever snapshot a session tracks is one a response delivered. *)
Lemma run_job props evs : forall x j,
  job (state (run props evs x)) = Some j ->
  In j (responses evs) \/ job (state x) = Some j.
Proof.
  induction evs as [|ev evs IH]; intros x j Hj; simpl in *; [auto|].
  destruct (IH _ _ Hj) as [Hin|Hprev].
  - left. destruct ev as [t|[b|err]|]; simpl; auto.
  - destruct (step_job props ev x Hprev) as [->|Hx]; [left; simpl|]; auto.
Qed.

(** C6 (as the code has it): the tracker stores each fetched snapshot
    exactly as received, without comparing it with the one before or
    clamping it.  So the progress of the later of two consecutive applied
    snapshots is at least the earlier one's, and progress is within 0-100
    with 100 on completed, whenever the responses of the server are so;
    and every tracked snapshot is one of the delivered responses. *)
Theorem snapshot_applied_as_received props evs b :
  (settled (reach props evs) < dispatched (reach props evs))%nat ->
  let x := reach props evs in
  let x' := step props (Settles (inl b)) x in
  job (state x') = Some b
  /\ (forall a, job (state x) = Some a -> (progress a <= progress b)%Q ->
        forall j, job (state x') = Some j -> (progress a <= progress j)%Q)
  /\ (in_range b -> forall j, job (state x') = Some j -> in_range j)
  /\ (forall j, job (state x) = Some j -> In j (responses evs)).
Proof.
  intros Hin x x'.
  assert (Hb : job (state x') = Some b).
  { subst x'. rewrite (step_settles props _ x Hin), settle_state, response_state.
    reflexivity. }
  split; [exact Hb|]. split; [|split].
  - intros a _ Hle j Hj. rewrite Hb in Hj. now inversion Hj; subst.
  - intros Hr j Hj. rewrite Hb in Hj. now inversion Hj; subst.
  - intros j Hj. destruct (run_job props evs _ Hj) as [H|H]; [exact H|].
    unfold mount in H. simpl in H. discriminate.
Qed.

Lemma snapshot_applied_as_received_witness :
  let b := snapshot "job-1" processing 90 "cleaning" in
  let x := reach sample_props sample_run in
  let x' := step sample_props (Settles (inl b)) x in
  job (state x') = Some b
  /\ (forall a, job (state x) = Some a -> (progress a <= progress b)%Q ->
        forall j, job (state x') = Some j -> (progress a <= progress j)%Q)
  /\ (in_range b -> forall j, job (state x') = Some j -> in_range j)
  /\ (forall j, job (state x) = Some j -> In j (responses sample_run)).
Proof.
  apply (snapshot_applied_as_received sample_props sample_run
           (snapshot "job-1" processing 90 "cleaning")).
  vm_compute. lia.
Defined.

(** C6 fails as stated: with 50 tracked and a poll in flight, a
    processing snapshot of the same job at 30 is applied, and so are one at
    150 and a completed one at 40. *)
Lemma progress_decrease_applied :
  let a := snapshot "job-1" processing 50 "cleaning" in
  let b := snapshot "job-1" processing 30 "cleaning" in
  let c := snapshot "job-1" processing 150 "cleaning" in
  let d := snapshot "job-1" completed 40 "done" in
  let x := reach sample_props [Settles (inl a); TimerFires 1] in
  job (state x) = Some a
  /\ job (state (step sample_props (Settles (inl b)) x)) = Some b
  /\ job_id a = job_id b
  /\ terminal (status a) = false /\ terminal (status b) = false
  /\ ~ (progress a <= progress b)%Q
  /\ job (state (step sample_props (Settles (inl c)) x)) = Some c
  /\ ~ (progress c <= 100)%Q
  /\ job (state (step sample_props (Settles (inl d)) x)) = Some d
  /\ status d = completed /\ ~ (progress d == 100)%Q.
Proof.
  repeat split; try reflexivity; intros H; vm_compute in H;
    try discriminate; now apply H.
Qed.

(** C7 (as the code has it): a response that arrives when [isPolling] is
    already off (after a stop, or after a terminal snapshot) is applied
    like any other: the tracked snapshot is replaced, the error cleared,
    and a completed or failed snapshot still raises its toast and its
    callback (a snapshot in another state raises nothing).  Polling stays
    off and no later event dispatches a poll. *)
Theorem late_response_applied props evs b :
  isPolling (state (reach props evs)) = false ->
  (settled (reach props evs) < dispatched (reach props evs))%nat ->
  let x := reach props evs in
  let x' := step props (Settles (inl b)) x in
  job (state x') = Some b
  /\ error (state x') = None
  /\ isPolling (state x') = false
  /\ (forall evs', dispatched (run props evs' x') = dispatched x)
  /\ log x'
     = (log x
        ++ match status b with
           | completed =>
               toast_success "Dataset processing completed! ðŸŽ‰"
               :: if onComplete props then [call_onComplete b] else []
           | failed =>
               toast_error "Dataset processing failed"
               :: if onError props
                  then [call_onError (Js.or_else (Some (message b)) "Job failed")]
                  else []
           | _ => []
           end)%list.
Proof.
  intros Hoff Hin x x'. subst x'. rewrite (step_settles props _ x Hin).
  assert (Hoff' : isPolling (exec (fetchJobStatus_settled props (inl b)) (state x)) = false)
    by now apply settled_keeps_disabled.
  destruct (settle_disables props (inl b) (reach_synced props evs) Hoff')
    as (Hp & _ & Hd & Hrun).
  fold x in Hp, Hd, Hrun.
  rewrite settle_log. rewrite settle_state, response_state. simpl.
  repeat split.
  - rewrite settle_state, response_state in Hp. exact Hp.
  - intros evs'. rewrite Hrun. exact Hd.
  - f_equal. unfold effects, fetchJobStatus_settled.
    destruct (status b), (onComplete props), (onError props); reflexivity.
Qed.

Lemma late_response_applied_witness :
  let b := sample_completed in
  let evs := [Settles (inl (snapshot "job-1" uploaded 0 "queued"));
              TimerFires 1; ClickStop] in
  let x := reach sample_props evs in
  let x' := step sample_props (Settles (inl b)) x in
  job (state x') = Some b
  /\ error (state x') = None
  /\ isPolling (state x') = false
  /\ (forall evs', dispatched (run sample_props evs' x') = dispatched x)
  /\ log x'
     = (log x ++ [toast_success "Dataset processing completed! ðŸŽ‰";
                  call_onComplete b])%list.
Proof.
  apply (late_response_applied sample_props
           [Settles (inl (snapshot "job-1" uploaded 0 "queued"));
            TimerFires 1; ClickStop]
           sample_completed).
  - reflexivity.
  - vm_compute. lia.
Defined.

(** C7 fails as stated: the first poll answers, the timer dispatches a
    second poll, the user clicks stop while it is in flight; the answer
    of the second poll then replaces the tracked snapshot, and a completed
    answer also fires [onComplete]. *)
Lemma late_snapshot_not_discarded :
  let a := snapshot "job-1" uploaded 0 "queued" in
  let b := snapshot "job-1" processing 45 "cleaning" in
  let before_stop := reach sample_props [Settles (inl a); TimerFires 1] in
  let x := step sample_props ClickStop before_stop in
  stop_button_rendered (state before_stop) = true
  /\ isPolling (state x) = false
  /\ UsePolling.stopped (hook x)
  /\ in_flight x = 1%nat
  /\ job (state x) = Some a
  /\ job (state (step sample_props (Settles (inl b)) x)) = Some b
  /\ log (step sample_props (Settles (inl sample_completed)) x)
     = [toast_success "Dataset processing completed! ðŸŽ‰";
        call_onComplete sample_completed].
Proof. repeat split. Qed.

End TrackerClaims.

(** ** Stopping the driver, and the artifact location *)

Module DriverClaims.
Import Api JobStatusTracker.
Import UsePollingFacts TrackerFacts.



(** C5: [getDownloadUrl] is the base endpoint followed by
    [/api/v1/download/] and the job identifier, so it is fixed by those
    two: the same identifier under the same base gives the same location,
    from whatever tracker state the download is started. *)
Theorem getDownloadUrl_pure env id :
  getDownloadUrl env id = API_BASE_URL env ++ "/api/v1/download/" ++ id
  /\ (forall env' id',
        API_BASE_URL env' = API_BASE_URL env -> id' = id ->
        getDownloadUrl env' id' = getDownloadUrl env id)
  /\ (forall props1 props2 s1 s2 u1 u2,
        jobId props1 = id -> jobId props2 = id ->
        In (window_open u1) (effects (handleDownload env props1) s1) ->
        In (window_open u2) (effects (handleDownload env props2) s2) ->
        u1 = u2 /\ u1 = getDownloadUrl env id).
Proof.
  split; [reflexivity|]. split.
  - intros env' id' Hbase ->. unfold getDownloadUrl. now rewrite Hbase.
  - assert (H : forall props s u, jobId props = id ->
              In (window_open u) (effects (handleDownload env props) s) ->
              u = getDownloadUrl env id).
    { intros props s u Hid. unfold effects, handleDownload.
      destruct (job s) as [j|]; [|intros []].
      destruct (download_url j) as [d|]; [|intros []].
      destruct (String.eqb d ""); [intros []|]. simpl.
      intros [Hu|[Hu|[]]]; [|discriminate].
      inversion Hu. now rewrite Hid. }
    intros props1 props2 s1 s2 u1 u2 H1 H2 Hu1 Hu2.
    rewrite (H _ _ _ H1 Hu1), (H _ _ _ H2 Hu2). auto.
Qed.

Lemma getDownloadUrl_pure_witness :
  getDownloadUrl None "job-1" = "http://localhost:8000/api/v1/download/job-1"
  /\ getDownloadUrl (Some "") "job-1" = getDownloadUrl None "job-1".
Proof.
  split.
  - exact (proj1 (getDownloadUrl_pure None "job-1")).
  - apply (proj1 (proj2 (getDownloadUrl_pure None "job-1"))); reflexivity.
Defined.

End DriverClaims.

(** ** More on the upload component *)

Module JsFacts.
Import FileUploadFacts.

Lemma lower_ascii_idem c : Js.lower_ascii (Js.lower_ascii c) = Js.lower_ascii c.
Proof. destruct c as [[] [] [] [] [] [] [] []]; reflexivity. Qed.

Lemma lower_ascii_dot c :
  Ascii.eqb (Js.lower_ascii c) "." = Ascii.eqb c ".".
Proof. destruct c as [[] [] [] [] [] [] [] []]; reflexivity. Qed.

Lemma toLowerCase_idem s : Js.toLowerCase (Js.toLowerCase s) = Js.toLowerCase s.
Proof.
  induction s as [|c s IH]; simpl; [reflexivity|].
  now rewrite lower_ascii_idem, IH.
Qed.

Lemma toLowerCase_of_list l :
  Js.toLowerCase (string_of_list_ascii l)
  = string_of_list_ascii (map Js.lower_ascii l).
Proof. induction l as [|c l IH]; simpl; [reflexivity | now rewrite IH]. Qed.

Lemma toLowerCase_app s t :
  Js.toLowerCase (s ++ t) = Js.toLowerCase s ++ Js.toLowerCase t.
Proof. induction s as [|c s IH]; simpl; [reflexivity | now rewrite IH]. Qed.

Lemma free_of_lower s :
  Js.free_of "." (Js.toLowerCase s) = Js.free_of "." s.
Proof.
  induction s as [|c s IH]; simpl; [reflexivity|].
  now rewrite lower_ascii_dot, IH.
Qed.

(** Splitting at dots commutes with lower-casing. *)
Lemma split_from_lower s : forall cur,
  Js.split_from "." (map Js.lower_ascii cur) (Js.toLowerCase s)
  = map Js.toLowerCase (Js.split_from "." cur s).
Proof.
  induction s as [|c s IH]; intros cur; simpl.
  - now rewrite toLowerCase_of_list, map_rev.
  - rewrite lower_ascii_dot. destruct (Ascii.eqb c "."); simpl.
    + rewrite toLowerCase_of_list, map_rev. f_equal. apply (IH []).
    + apply (IH (c :: cur)).
Qed.

Lemma pop_map f l : Js.pop (map f l) = option_map f (Js.pop l).
Proof.
  induction l as [|x [|y l] IH]; [reflexivity | reflexivity |].
  exact IH.
Qed.

Lemma pop_cons x l : l <> [] -> Js.pop (x :: l) = Js.pop l.
Proof. destruct l; [contradiction | reflexivity]. Qed.

Lemma string_of_list_app l1 l2 :
  string_of_list_ascii (l1 ++ l2)
  = string_of_list_ascii l1 ++ string_of_list_ascii l2.
Proof. induction l1 as [|c l1 IH]; simpl; [reflexivity | now rewrite IH]. Qed.

Lemma append_snoc s c t : (s ++ String c "") ++ t = s ++ String c t.
Proof. induction s as [|a s IH]; simpl; [reflexivity | now rewrite IH]. Qed.

Lemma append_empty s : s ++ "" = s.
Proof. induction s as [|a s IH]; simpl; [reflexivity | now rewrite IH]. Qed.

(** A string without the separator is a single segment. *)
Lemma split_from_free sep s : forall cur,
  Js.free_of sep s = true ->
  Js.split_from sep cur s = [string_of_list_ascii (rev cur) ++ s].
Proof.
  induction s as [|c s IH]; intros cur Hfree; simpl in *.
  - now rewrite append_empty.
  - apply andb_true_iff in Hfree. destruct Hfree as [Hc Hs].
    apply negb_true_iff in Hc. rewrite Hc, (IH _ Hs). simpl.
    f_equal. rewrite string_of_list_app. simpl. apply append_snoc.
Qed.

(** The last segment only depends on what follows the last separator. *)
Lemma pop_split_after sep s1 s2 : forall cur,
  Js.pop (Js.split_from sep cur (s1 ++ String sep s2))
  = Js.pop (Js.split_from sep [] s2).
Proof.
  induction s1 as [|c s1 IH]; intros cur; simpl.
  - rewrite Ascii.eqb_refl. apply pop_cons, split_from_nonempty.
  - destruct (Ascii.eqb c sep).
    + rewrite pop_cons by apply split_from_nonempty. apply IH.
    + apply IH.
Qed.

Lemma prefix_In sub : forall s,
  String.prefix sub s = true <-> In sub (Js.prefixes s).
Proof.
  induction sub as [|c sub IH]; intros s.
  - destruct s; simpl; tauto.
  - destruct s as [|c' s]; simpl.
    + split; [discriminate | intros [H|[]]; discriminate].
    + destruct (ascii_dec c c') as [->|Hne]; split.
      * intros H. right. apply in_map, IH, H.
      * intros [H|H]; [discriminate|].
        apply in_map_iff in H. destruct H as (t & Ht & Hin).
        inversion Ht; subst. now apply IH.
      * discriminate.
      * intros [H|H]; [discriminate|].
        apply in_map_iff in H. destruct H as (t & Ht & _).
        inversion Ht; subst. contradiction.
Qed.

(** [includes] is membership among the substrings. *)
Lemma includes_In sub : forall s,
  Js.includes s sub = true <-> In sub (Js.substrings s).
Proof.
  induction s as [|c s IH]; cbn [Js.includes Js.substrings].
  - rewrite orb_false_r, app_nil_r. apply prefix_In.
  - rewrite orb_true_iff, in_app_iff, IH, prefix_In. reflexivity.
Qed.

End JsFacts.

Module UploadExtras.
Import Api FileUpload FileUploadFacts JsFacts.

Lemma run_app props evs1 evs2 s :
  exec (run props (evs1 ++ evs2)) s
  = exec (run props evs2) (exec (run props evs1) s)
  /\ effects (run props (evs1 ++ evs2)) s
     = (effects (run props evs1) s
        ++ effects (run props evs2) (exec (run props evs1) s))%list.
Proof.
  revert s. induction evs1 as [|ev evs1 IH]; intros s.
  - split; reflexivity.
  - change ((ev :: evs1) ++ evs2)%list with (ev :: (evs1 ++ evs2))%list.
    destruct (run_cons props ev (evs1 ++ evs2) s) as [He Hl].
    destruct (run_cons props ev evs1 s) as [He1 Hl1].
    destruct (IH (exec (handle props ev) s)) as [IHe IHl].
    rewrite He, Hl, He1, Hl1, IHe, IHl. split; [reflexivity|].
    now rewrite app_assoc.
Qed.

(** Selecting files one after another leaves the last validated one
    selected, touches nothing else and posts nothing. *)
Lemma selections_state props files : forall s,
  let s' := exec (run props (map Select files)) s in
  selectedFile s'
  = match last_validated props files with
    | Some f => Some f
    | None => selectedFile s
    end
  /\ uploading s' = uploading s
  /\ filter is_post (effects (run props (map Select files)) s) = [].
Proof.
  induction files as [|f files IH] using rev_ind; intros s s'.
  - repeat split.
  - subst s'. rewrite map_app. simpl map.
    destruct (run_app props (map Select files) [Select f] s) as [He Hl].
    rewrite He, Hl. clear He Hl.
    destruct (IH s) as (Hsel & Hup & Hposts).
    set (s1 := exec (run props (map Select files)) s) in *.
    destruct (run_cons props (Select f) [] s1) as [He Hl].
    rewrite He, Hl. clear He Hl.
    change (exec (run props []) ?x) with x.
    change (effects (run props []) ?x) with (@nil Effect).
    rewrite app_nil_r, filter_app, Hposts. simpl app.
    unfold last_validated. rewrite rev_app_distr. simpl.
    fold (last_validated props files).
    change (handle props (Select f)) with (handleFileSelect props f).
    destruct (handleFileSelect_cases props f s1) as [(Hv & Hs & Hp)|(Hv & Hs & Hp)];
      rewrite Hv, Hs.
    + repeat split; assumption.
    + rewrite Hp. repeat split. exact Hup.
Qed.


(** X2: the extension [handleFileSelect] tests is the dot plus the
    lower-cased text after the last dot of the name; a name without a dot
    counts as its own extension. *)
Theorem extension_after_last_dot base ext sz :
  Js.free_of "." ext = true ->
  fileExtension {| name := base ++ "." ++ ext; size := sz |}
  = "." ++ Js.toLowerCase ext
  /\ fileExtension {| name := ext; size := sz |} = "." ++ Js.toLowerCase ext.
Proof.
  intros Hfree. unfold fileExtension, Js.split. simpl name.
  change ("." ++ ext) with (String "." ext).
  rewrite pop_split_after, (split_from_free "." ext [] Hfree). auto.
Qed.

Lemma extension_after_last_dot_witness :
  fileExtension {| name := "holiday.photos.JPG"; size := 1 |} = ".jpg"
  /\ fileExtension {| name := "JPG"; size := 1 |} = ".jpg".
Proof. apply (extension_after_last_dot "holiday.photos" "JPG" 1). reflexivity. Defined.

Lemma fileExtension_lower file :
  fileExtension {| name := Js.toLowerCase (name file); size := size file |}
  = fileExtension file.
Proof.
  unfold fileExtension, Js.split. simpl name.
  pose proof (split_from_lower (name file) []) as Hsplit.
  simpl map in Hsplit. rewrite Hsplit, pop_map.
  destruct (Js.pop (Js.split_from "." [] (name file))); simpl; [|reflexivity].
  now rewrite toLowerCase_idem.
Qed.

(** X3: validation does not see letter case: two files of the same size
    whose names differ only in the case of ASCII letters are both accepted
    or both refused. *)
Theorem validation_ignores_case props f1 f2 :
  Js.toLowerCase (name f1) = Js.toLowerCase (name f2) ->
  size f1 = size f2 ->
  validated props f1 = validated props f2.
Proof.
  intros Hname Hsize. unfold validated.
  rewrite <- (fileExtension_lower f1), <- (fileExtension_lower f2).
  now rewrite Hname, Hsize.
Qed.

Lemma validation_ignores_case_witness :
  validated (system_props "balanced") {| name := "Scan.PNG"; size := 7 |}
  = validated (system_props "balanced") {| name := "scan.png"; size := 7 |}.
Proof. apply validation_ignores_case; reflexivity. Defined.

Lemma free_of_of_list sep l :
  Js.free_of sep (string_of_list_ascii l)
  = forallb (fun c => negb (Ascii.eqb c sep)) l.
Proof. induction l as [|c l IH]; simpl; [reflexivity | now rewrite IH]. Qed.

Lemma forallb_reverse {A} (f : A -> bool) l : forallb f (rev l) = forallb f l.
Proof.
  induction l as [|a l IH]; simpl; [reflexivity|].
  rewrite forallb_app, IH. simpl. rewrite andb_true_r. apply andb_comm.
Qed.

Lemma split_from_segments_free sep s : forall cur,
  forallb (fun c => negb (Ascii.eqb c sep)) cur = true ->
  Forall (fun x => Js.free_of sep x = true) (Js.split_from sep cur s).
Proof.
  induction s as [|c s IH]; intros cur Hcur; simpl.
  - constructor; [|constructor].
    rewrite free_of_of_list, forallb_reverse. exact Hcur.
  - destruct (Ascii.eqb c sep) eqn:Hc.
    + constructor; [|now apply IH].
      rewrite free_of_of_list, forallb_reverse. exact Hcur.
    + apply IH. simpl. now rewrite Hc.
Qed.

Lemma pop_In l : forall x, Js.pop l = Some x -> In x l.
Proof.
  induction l as [|y [|z l] IH]; intros x H.
  - discriminate.
  - inversion H. now left.
  - right. now apply IH.
Qed.

Lemma fileExtension_shaped file : extension_shaped (fileExtension file) = true.
Proof.
  unfold fileExtension, Js.split.
  destruct (Js.pop (Js.split_from "." [] (name file))) as [e|] eqn:He;
    simpl; [|reflexivity].
  rewrite free_of_lower.
  pose proof (split_from_segments_free "." (name file) [] eq_refl) as Hall.
  rewrite Forall_forall in Hall. apply Hall, pop_In, He.
Qed.

Lemma incl_by_eqb (l1 l2 : list string) :
  forallb (fun x => existsb (String.eqb x) l2) l1 = true -> incl l1 l2.
Proof.
  intros H x Hx. rewrite forallb_forall in H. specialize (H x Hx).
  apply existsb_exists in H. destruct H as (y & Hy & Heq).
  apply String.eqb_eq in Heq. now subst.
Qed.

Lemma default_passing_spec e :
  In e default_passing
  <-> In e (filter extension_shaped
              (Js.substrings ".zip,.jpg,.jpeg,.png,.bmp,.tiff,.webp")).
Proof.
  split; apply incl_by_eqb; vm_compute; reflexivity.
Qed.

(** X4: with the default [acceptedTypes], a file within the size ceiling is
    selected exactly when its extension is one of the 29 strings of
    [default_passing]: the seven listed extensions, their proper prefixes
    down to the bare dot, and each listed one but the last followed by a
    comma. *)
Theorem default_type_check props file s :
  acceptedTypes_prop props = None ->
  size file <= maxSize props * 1024 * 1024 ->
  (effects (handleFileSelect props file) s
   = [toast_success "File selected successfully!"]
   <-> In (fileExtension file) default_passing).
Proof.
  intros Hacc Hsize.
  assert (Hinc : Js.includes (acceptedTypes props) (fileExtension file) = true
                 <-> In (fileExtension file) default_passing).
  { unfold acceptedTypes. rewrite Hacc. unfold default.
    rewrite includes_In, default_passing_spec, filter_In.
    pose proof (fileExtension_shaped file). tauto. }
  unfold handleFileSelect, effects. rewrite Z.gtb_ltb.
  apply Z.ltb_ge in Hsize. rewrite Hsize.
  destruct (Js.includes (acceptedTypes props) (fileExtension file)); simpl.
  - split; [intros _; now apply Hinc | reflexivity].
  - split; [discriminate | intros H; apply Hinc in H; discriminate].
Qed.

Lemma default_type_check_witness :
  effects (handleFileSelect (system_props "balanced")
             {| name := "notes.we"; size := 3 |}) initial
  = [toast_success "File selected successfully!"]
  <-> In (fileExtension {| name := "notes.we"; size := 3 |}) default_passing.
Proof.
  apply (default_type_check (system_props "balanced")
           {| name := "notes.we"; size := 3 |} initial).
  - reflexivity.
  - vm_compute. discriminate.
Defined.

(** X5: a refused file leaves the earlier selection in place and a later
    accepted one replaces it: after any sequence of selections the selected
    file is the last one that passed validation, and an upload click posts
    that file and nothing else. *)
Theorem upload_posts_last_validated props files :
  selectedFile (exec (run props (map Select files)) initial)
  = last_validated props files
  /\ filter is_post
       (effects (run props (map Select files ++ [ClickUpload])) initial)
     = match last_validated props files with
       | Some f => [post (uploadDataset f (upload_options props))]
       | None => []
       end.
Proof.
  destruct (selections_state props files initial) as (Hsel & Hup & Hposts).
  split.
  - rewrite Hsel. now destruct (last_validated props files).
  - destruct (run_app props (map Select files) [ClickUpload] initial) as [_ Hl].
    rewrite Hl, filter_app, Hposts. cbn [app].
    set (s1 := exec (run props (map Select files)) initial) in *.
    destruct (run_cons props ClickUpload [] s1) as [_ Hl1]. rewrite Hl1.
    change (effects (run props []) ?x) with (@nil Effect). rewrite app_nil_r.
    unfold effects. cbn [handle]. simpl in Hup. rewrite Hup.
    unfold handleUpload. rewrite Hsel.
    destruct (last_validated props files); reflexivity.
Qed.



(** X7: the simulated-progress interval that an upload click starts is
    cleared when the upload succeeds and left running when it fails: a
    later firing then raises the progress of a component that is no longer
    uploading. *)
Theorem progress_interval_cleared_only_on_success props r s file :
  selectedFile s = Some file -> uploading s = false ->
  let l := effects (run props [ClickUpload; Settled r]) s in
  filter is_setInterval l = [setInterval 200]
  /\ filter is_clearInterval l
     = match r with inl _ => [clearInterval] | inr _ => [] end
  /\ (forall err, r = inr err ->
        let s' := exec (run props [ClickUpload; Settled r; ProgressTick]) s in
        uploading s' = false /\ uploadProgress s' = 10).
Proof.
  intros Hsel Hup l. subst l.
  unfold effects, exec, run, handle, bind. rewrite Hup.
  unfold handleUpload. rewrite Hsel.
  unfold handleUpload_settled, progressTick.
  destruct r as [resp|err];
    [destruct (onUploadSuccess props) | destruct (onUploadError props)];
    simpl; repeat split; intros; try discriminate; reflexivity.
Qed.

Lemma progress_interval_cleared_only_on_success_witness :
  let s := setSelectedFile (Some {| name := "set.zip"; size := 5 |}) initial in
  let r : UploadResponse + Axios.Error := inr {| Axios.response := None |} in
  let l := effects (run (system_props "balanced") [ClickUpload; Settled r]) s in
  filter is_setInterval l = [setInterval 200]
  /\ filter is_clearInterval l
     = match r with inl _ => [clearInterval] | inr _ => [] end
  /\ (forall err, r = inr err ->
        let s' := exec (run (system_props "balanced")
                          [ClickUpload; Settled r; ProgressTick]) s in
        uploading s' = false /\ uploadProgress s' = 10).
Proof.
  intros s r.
  apply (@progress_interval_cleared_only_on_success (system_props "balanced") r s
           {| name := "set.zip"; size := 5 |}); reflexivity.
Defined.

Lemma handle_progress_bounded props ev s :
  0 <= uploadProgress s <= 90 ->
  0 <= uploadProgress (exec (handle props ev) s) <= 90.
Proof.
  intros Hs. destruct ev as [file| | |r|]; simpl.
  - destruct (handleFileSelect_cases props file s) as [(_ & -> & _)|(_ & -> & _)];
      simpl; exact Hs.
  - unfold exec, handleUpload. destruct (uploading s); simpl; [exact Hs|].
    destruct (selectedFile s); simpl; [lia | exact Hs].
  - unfold exec, progressTick, update. simpl. lia.
  - unfold exec, handleUpload_settled.
    destruct r as [resp|err];
      [destruct (onUploadSuccess props) | destruct (onUploadError props)];
      simpl; lia.
  - unfold exec. destruct (selectedFile s); simpl; [|exact Hs].
    destruct (uploading s); simpl; exact Hs.
Qed.

(** X8: after every event the simulated progress is between 0 and 90: the
    100 that a successful upload sets is reset to 0 by the same handler.
    From 0, [n] firings of the progress interval bring it to
    [min (10 * n) 90]. *)
Theorem upload_progress_bounded props :
  (forall evs, 0 <= uploadProgress (exec (run props evs) initial) <= 90)
  /\ (forall n s, uploadProgress s = 0 ->
        uploadProgress (exec (run props (repeat ProgressTick n)) s)
        = Z.min (10 * Z.of_nat n) 90).
Proof.
  split.
  - intros evs.
    assert (H : forall s, 0 <= uploadProgress s <= 90 ->
                0 <= uploadProgress (exec (run props evs) s) <= 90).
    { induction evs as [|ev evs IH]; intros s Hs; [exact Hs|].
      destruct (run_cons props ev evs s) as [-> _].
      apply IH, handle_progress_bounded, Hs. }
    apply H. simpl. lia.
  - intros n s H0.
    assert (H : forall m p s0, uploadProgress s0 = p -> 0 <= p <= 90 ->
                uploadProgress (exec (run props (repeat ProgressTick m)) s0)
                = Z.min (p + 10 * Z.of_nat m) 90).
    { induction m as [|m IH]; intros p s0 Hp Hb.
      - simpl. unfold exec. simpl. lia.
      - change (repeat ProgressTick (S m)) with (ProgressTick :: repeat ProgressTick m).
        destruct (run_cons props ProgressTick (repeat ProgressTick m) s0) as [-> _].
        rewrite (IH (Z.min (p + 10) 90)).
        + lia.
        + unfold exec. simpl. now rewrite Hp.
        + lia. }
    rewrite (H n 0 s H0); [reflexivity | lia].
Qed.

Lemma upload_progress_bounded_witness :
  uploadProgress (exec (run (system_props "balanced") (repeat ProgressTick 12))
                       initial) = 90.
Proof.
  exact (proj2 (upload_progress_bounded (system_props "balanced")) 12%nat initial eq_refl).
Defined.

End UploadExtras.

(** ** More on the interval driver *)

Module UsePollingExtras.
Import UsePolling UsePollingFacts.

Lemma fresh_initial : fresh initial.
Proof. constructor. Qed.

Lemma fresh_clear t h : fresh h -> fresh (window_clearInterval t h).
Proof.
  unfold fresh. simpl. intros H. rewrite Forall_forall in *.
  intros x Hx. apply filter_In in Hx. now apply H.
Qed.

Lemma fresh_stop h : fresh h -> fresh (stop h).
Proof.
  unfold stop. destruct (intervalRef h); [|auto].
  intros H. apply (fresh_clear p) in H. exact H.
Qed.

Lemma fresh_set_interval h : fresh h -> fresh (set_interval h).
Proof.
  unfold fresh. simpl. intros H. constructor; [lia|].
  rewrite Forall_forall in *. intros x Hx. specialize (H x Hx). lia.
Qed.

Lemma fresh_effect o h : fresh h -> fresh (effect o h).
Proof.
  intros H. unfold effect. destruct (enabled o); simpl; [|exact H].
  apply fresh_set_interval.
  destruct (immediate o); simpl;
    (destruct (intervalRef h); [apply fresh_clear|]); exact H.
Qed.

Lemma fresh_render o h : fresh h -> fresh (render o h).
Proof.
  intros H. destruct (last_deps_dec o h) as [Hs|Hn].
  - now rewrite render_same.
  - rewrite render_changed by exact Hn.
    apply (fresh_effect o).
    destruct (has_cleanup (last_deps h)); [now apply fresh_stop | exact H].
Qed.

Lemma fresh_act a h : fresh h -> fresh (act a h).
Proof.
  destruct a as [o|t|]; simpl.
  - apply fresh_render.
  - unfold fire. destruct (existsb _ _); auto.
  - apply fresh_stop.
Qed.

Lemma fresh_run acts : forall h, fresh h -> fresh (run acts h).
Proof.
  induction acts as [|a acts IH]; intros h H; simpl; [exact H|].
  apply IH, fresh_act, H.
Qed.

Lemma armed_initial : armed initial.
Proof. intros H; discriminate. Qed.

Lemma armed_render o h : consistent h -> armed h -> armed (render o h).
Proof.
  intros Hc Ha. destruct (last_deps_dec o h) as [Hs|Hn].
  - now rewrite render_same.
  - rewrite render_changed by exact Hn.
    rewrite (effect_of_stopped o (before_effect_stopped Hc)).
    unfold armed, deps_of. simpl.
    destruct (enabled o); [|discriminate].
    intros _. destruct (immediate o); simpl; eauto.
Qed.

Lemma armed_fire t h : armed h -> armed (fire t h).
Proof. unfold fire. destruct (existsb _ _); auto. Qed.

(** What a run of the effect with [enabled] leaves behind. *)
Lemma render_enabled o h :
  consistent h -> last_deps h <> Some (deps_of o) -> enabled o = true ->
  timers (render o h) = [next_timer h]
  /\ intervalRef (render o h) = Some (next_timer h)
  /\ calls (render o h) = (calls h + if immediate o then 1 else 0)%nat.
Proof.
  intros Hc Hn He. rewrite render_changed by exact Hn.
  pose proof (before_effect_stopped Hc) as Hst.
  rewrite (effect_of_stopped o Hst), He.
  destruct Hst as [Ht _].
  assert (Hnext : next_timer (if has_cleanup (last_deps h) then cleanup h else h)
                  = next_timer h).
  { destruct (has_cleanup (last_deps h)); [|reflexivity].
    unfold cleanup, stop. destruct (intervalRef h); reflexivity. }
  assert (Hcalls : calls (if has_cleanup (last_deps h) then cleanup h else h)
                   = calls h).
  { destruct (has_cleanup (last_deps h)); [apply stop_calls | reflexivity]. }
  destruct (immediate o); simpl; rewrite Ht, Hnext, Hcalls;
    repeat split; lia.
Qed.

(** X9: however the hook is rendered, fired and stopped, at most one
    interval timer is live, and it is the one [intervalRef] holds: running
    the effect again never leaves two timers. *)
Theorem at_most_one_timer acts :
  let h := run acts initial in
  (List.length (timers h) <= 1)%nat
  /\ timers h = match intervalRef h with Some t => [t] | None => [] end.
Proof.
  intros h.
  destruct (consistent_run acts consistent_initial) as [Ho _].
  fold h in Ho. unfold owned in Ho. split; [|exact Ho].
  rewrite Ho. destruct (intervalRef h); simpl; lia.
Qed.

(** X10: as long as [stop] is not called, the hook holds a timer exactly
    when it was last rendered with [enabled]. *)
Theorem timer_live_iff_enabled acts :
  existsb is_Stop acts = false ->
  let h := run acts initial in
  timers h <> [] <-> has_cleanup (last_deps h) = true.
Proof.
  intros Hno h.
  assert (Ha : armed h).
  { subst h. revert Hno.
    assert (H : forall h0, consistent h0 -> armed h0 ->
                existsb is_Stop acts = false -> armed (run acts h0)).
    { induction acts as [|a acts IH]; intros h0 Hc Ha Hno; simpl in *; [exact Ha|].
      apply orb_false_iff in Hno. destruct Hno as [Hs Hno].
      apply IH; [now apply consistent_act | | exact Hno].
      destruct a as [o|t|]; simpl;
        [now apply armed_render | now apply armed_fire | discriminate]. }
    apply H; [apply consistent_initial | apply armed_initial]. }
  destruct (consistent_run acts consistent_initial) as [Ho Hn].
  fold h in Ho, Hn. unfold owned in Ho. split.
  - intros Hlive. destruct (has_cleanup (last_deps h)); [reflexivity|].
    rewrite Ho, (Hn eq_refl) in Hlive. contradiction.
  - intros Hc. destruct (Ha Hc) as [t Ht]. rewrite Ho, Ht. discriminate.
Qed.

Lemma timer_live_iff_enabled_witness :
  let o e := {| interval := 2000; enabled_opt := Some e;
                immediate_opt := None |} in
  let h := run [Render (o true); Fire 1; Render (o false)] initial in
  timers h <> [] <-> has_cleanup (last_deps h) = true.
Proof.
  intros o.
  apply (timer_live_iff_enabled [Render (o true); Fire 1; Render (o false)]).
  reflexivity.
Defined.

(** X11: when a render changes a dependency and [enabled] is set, the
    effect runs again: the timer held before is no longer live, a single
    new one is, and the callback is invoked at once when [immediate] is
    set. *)
Theorem rerender_replaces_timer acts o :
  let h := run acts initial in
  last_deps h <> Some (deps_of o) -> enabled o = true ->
  let h' := render o h in
  timers h' = [next_timer h]
  /\ intervalRef h' = Some (next_timer h)
  /\ calls h' = (calls h + if immediate o then 1 else 0)%nat
  /\ (forall t, In t (timers h) -> ~ In t (timers h')).
Proof.
  intros h Hn He h'.
  pose proof (consistent_run acts consistent_initial) as Hc. fold h in Hc.
  destruct (render_enabled Hc Hn He) as (Ht & Hr & Hcalls).
  repeat split; try assumption.
  intros t Hin Hin'. subst h'. rewrite Ht in Hin'.
  destruct Hin' as [Heq|[]]. subst t.
  pose proof (fresh_run acts fresh_initial) as Hf. fold h in Hf.
  unfold fresh in Hf. rewrite Forall_forall in Hf.
  specialize (Hf _ Hin). lia.
Qed.

Lemma rerender_replaces_timer_witness :
  let o ms := {| interval := ms; enabled_opt := None; immediate_opt := None |} in
  let h := run [Render (o 2000)] initial in
  let h' := render (o 5000) h in
  timers h' = [next_timer h]
  /\ intervalRef h' = Some (next_timer h)
  /\ calls h' = (calls h + if immediate (o 5000%Z) then 1 else 0)%nat
  /\ (forall t, In t (timers h) -> ~ In t (timers h')).
Proof.
  intros o.
  apply (@rerender_replaces_timer [Render (o 2000)] (o 5000)).
  - discriminate.
  - reflexivity.
Defined.

(** X12: a render that changes none of [interval], [enabled] and
    [immediate] does nothing: rendering twice with the same options is
    rendering once, so a new callback alone neither invokes nor re-arms. *)
Theorem render_twice o h : render o (render o h) = render o h.
Proof. apply render_same, render_last_deps. Qed.

End UsePollingExtras.

(** ** Stopping the driver *)

Module StopClaims.
Import Api JobStatusTracker.
Import UsePollingFacts UsePollingExtras TrackerFacts DriverClaims.




End StopClaims.

(** ** More on the job status tracker *)

Module TrackerExtras.
Import Api JobStatusTracker.
Import UsePollingFacts UsePollingExtras TrackerFacts TrackerClaims.

Lemma render_armed x :
  UsePolling.consistent (hook x) -> UsePolling.armed (hook x) ->
  UsePolling.armed (hook (render x)).
Proof. intros Hc Ha. simpl. now apply armed_render. Qed.

Lemma render_disabled_armed x :
  isPolling (state x) = false -> UsePolling.armed (hook (render x)).
Proof.
  intros Hp Hc. exfalso. simpl in Hc. rewrite render_last_deps in Hc.
  unfold UsePolling.deps_of, UsePolling.enabled in Hc. simpl in Hc.
  congruence.
Qed.

Lemma step_armed props ev x :
  synced x -> UsePolling.armed (hook x) ->
  UsePolling.armed (hook (step props ev x)).
Proof.
  intros [Hc Hd] Ha. destruct ev as [t|r|]; simpl.
  - now apply armed_fire.
  - destruct (settled x <? dispatched x)%nat; [|exact Ha].
    rewrite settle_unfold. now apply render_armed.
  - destruct (stop_button_rendered (state x)); [|exact Ha].
    now apply render_disabled_armed.
Qed.

Lemma reach_armed props evs : UsePolling.armed (hook (reach props evs)).
Proof.
  unfold reach.
  assert (H : forall x, synced x -> UsePolling.armed (hook x) ->
              UsePolling.armed (hook (run props evs x))).
  { induction evs as [|ev evs IH]; intros x Hs Ha; simpl; [exact Ha|].
    apply IH; [now apply step_synced | now apply step_armed]. }
  apply H; [apply mount_synced|].
  apply render_armed; [apply consistent_initial | apply armed_initial].
Qed.

(** X13: a snapshot whose state is uploaded or processing only replaces
    the tracked snapshot and clears the error: no toast, no callback,
    [isPolling] and the driver as they were. *)
Theorem nonterminal_snapshot_updates_only props evs b :
  terminal (status b) = false ->
  (settled (reach props evs) < dispatched (reach props evs))%nat ->
  let x := reach props evs in
  let x' := step props (Settles (inl b)) x in
  job (state x') = Some b
  /\ error (state x') = None
  /\ isPolling (state x') = isPolling (state x)
  /\ hook x' = hook x
  /\ log x' = log x.
Proof.
  intros Hnt Hin x x'. subst x'. rewrite (step_settles props _ x Hin).
  rewrite settle_state, response_state, Hnt. simpl.
  repeat split.
  - rewrite settle_unfold. cbn [render hook state]. apply render_same.
    rewrite response_state, Hnt. cbn [polling_options isPolling].
    destruct (reach_synced props evs) as [_ Hd]. exact Hd.
  - rewrite settle_log. unfold effects, fetchJobStatus_settled.
    unfold terminal in Hnt. apply orb_false_iff in Hnt.
    destruct Hnt as [-> ->]. simpl. apply app_nil_r.
Qed.

Lemma nonterminal_snapshot_updates_only_witness :
  let b := snapshot "job-1" processing 90 "cleaning" in
  let x := reach sample_props sample_run in
  let x' := step sample_props (Settles (inl b)) x in
  job (state x') = Some b
  /\ error (state x') = None
  /\ isPolling (state x') = isPolling (state x)
  /\ hook x' = hook x
  /\ log x' = log x.
Proof.
  apply (nonterminal_snapshot_updates_only sample_props sample_run
           (snapshot "job-1" processing 90 "cleaning")).
  - reflexivity.
  - vm_compute. lia.
Defined.

(** X14: a failed snapshot raises one error toast and one [onError] call
    (when the prop is supplied) carrying the snapshot's message, or
    [Job failed] when the message is empty; it never calls [onComplete]. *)
Theorem failed_snapshot_reports props evs b :
  status b = failed ->
  (settled (reach props evs) < dispatched (reach props evs))%nat ->
  let x := reach props evs in
  let x' := step props (Settles (inl b)) x in
  log x'
  = (log x
     ++ toast_error "Dataset processing failed"
     :: if onError props
        then [call_onError (if String.eqb (message b) "" then "Job failed"
                            else message b)]
        else [])%list
  /\ isPolling (state x') = false.
Proof.
  intros Hf Hin x x'. subst x'. rewrite (step_settles props _ x Hin).
  rewrite settle_log, settle_state, response_state.
  unfold effects, fetchJobStatus_settled, terminal. rewrite Hf.
  destruct (onError props); simpl; split; reflexivity.
Qed.

Lemma failed_snapshot_reports_witness :
  let b := snapshot "job-1" failed 40 "" in
  let x := reach sample_props sample_run in
  let x' := step sample_props (Settles (inl b)) x in
  log x'
  = (log x ++ [toast_error "Dataset processing failed";
               call_onError "Job failed"])%list
  /\ isPolling (state x') = false.
Proof.
  apply (failed_snapshot_reports sample_props sample_run
           (snapshot "job-1" failed 40 "")).
  - reflexivity.
  - vm_compute. lia.
Defined.

(** X15: the tracker has no way back to polling: once [isPolling] is off,
    no event turns it on again or dispatches a poll. *)
Theorem polling_never_resumes props evs evs' :
  isPolling (state (reach props evs)) = false ->
  isPolling (state (run props evs' (reach props evs))) = false
  /\ dispatched (run props evs' (reach props evs)) = dispatched (reach props evs).
Proof. intros Hoff. apply run_idle; [apply reach_synced | exact Hoff]. Qed.

Lemma polling_never_resumes_witness :
  let evs := [Settles (inl (snapshot "job-1" uploaded 0 "queued")); ClickStop] in
  let evs' := [TimerFires 1; ClickStop; TimerFires 1] in
  isPolling (state (run sample_props evs' (reach sample_props evs))) = false
  /\ dispatched (run sample_props evs' (reach sample_props evs))
     = dispatched (reach sample_props evs).
Proof.
  apply (polling_never_resumes sample_props
           [Settles (inl (snapshot "job-1" uploaded 0 "queued")); ClickStop]
           [TimerFires 1; ClickStop; TimerFires 1]).
  reflexivity.
Defined.

(** X16: a tracker mounted with [autoStart] off never fetches anything:
    whatever happens, it stays as mounted, with no poll dispatched, no
    snapshot, and the loading card on screen. *)
Theorem tracker_without_autostart_inert props evs :
  autoStart props = false ->
  reach props evs = mount props
  /\ dispatched (mount props) = 0%nat
  /\ view (state (mount props)) = LoadingCard.
Proof.
  intros Hauto.
  assert (Hm : mount props
               = {| state := {| job := None; error := None; isPolling := false |};
                    hook := UsePolling.set_deps (2000, false, true) UsePolling.initial;
                    settled := 0; log := [] |})
    by (unfold mount; rewrite Hauto; reflexivity).
  split; [|rewrite Hm; split; reflexivity].
  apply run_final; [apply mount_synced | |]; rewrite Hm; reflexivity.
Qed.

Lemma tracker_without_autostart_inert_witness :
  let props := {| jobId := "job-1"; onComplete := true; onError := true;
                  autoStart_prop := Some false |} in
  reach props [TimerFires 1; Settles (inl sample_completed); ClickStop]
  = mount props
  /\ dispatched (mount props) = 0%nat
  /\ view (state (mount props)) = LoadingCard.
Proof.
  intros props.
  apply (tracker_without_autostart_inert props
           [TimerFires 1; Settles (inl sample_completed); ClickStop]).
  reflexivity.
Defined.

Lemma fire_live t x :
  UsePolling.timers (hook x) = [t] ->
  let x' := fire t x in
  dispatched x' = S (dispatched x)
  /\ settled x' = settled x /\ state x' = state x
  /\ UsePolling.timers (hook x') = [t].
Proof.
  intros Ht. unfold fire, dispatched, UsePolling.fire. simpl.
  rewrite Ht. simpl. rewrite Pos.eqb_refl. simpl. auto.
Qed.

(** X17: polls go out on a fixed cadence: while [isPolling] is on a timer
    is live, and each of its firings dispatches one more fetch whether or
    not the earlier ones have settled, so that [n] firings in a row leave
    [n] more fetches in flight. *)
Theorem timer_firing_dispatches props evs :
  isPolling (state (reach props evs)) = true ->
  exists t,
    UsePolling.timers (hook (reach props evs)) = [t]
    /\ forall n,
         let x' := run props (repeat (TimerFires t) n) (reach props evs) in
         dispatched x' = (dispatched (reach props evs) + n)%nat
         /\ settled x' = settled (reach props evs)
         /\ state x' = state (reach props evs).
Proof.
  intros Hon. set (x := reach props evs) in *.
  destruct (reach_synced props evs) as [[Ho _] Hd]. fold x in Ho, Hd.
  assert (Hc : UsePolling.has_cleanup (UsePolling.last_deps (hook x)) = true).
  { rewrite Hd. unfold UsePolling.deps_of, UsePolling.enabled. simpl. exact Hon. }
  destruct (reach_armed props evs Hc) as [t Ht]. fold x in Ht.
  unfold UsePolling.owned in Ho. rewrite Ht in Ho.
  exists t. split; [exact Ho|].
  assert (H : forall n y, UsePolling.timers (hook y) = [t] ->
              let y' := run props (repeat (TimerFires t) n) y in
              dispatched y' = (dispatched y + n)%nat
              /\ settled y' = settled y /\ state y' = state y).
  { induction n as [|n IH]; intros y Hy; simpl.
    - repeat split. lia.
    - destruct (@fire_live t y Hy) as (Hd1 & Hs1 & Hst1 & Ht1).
      destruct (IH (fire t y) Ht1) as (Hd2 & Hs2 & Hst2).
      simpl in Hd2, Hs2, Hst2. rewrite Hd2, Hd1.
      repeat split; [lia | exact Hs2 | exact Hst2]. }
  intros n. apply H, Ho.
Qed.

Lemma timer_firing_dispatches_witness :
  exists t,
    UsePolling.timers (hook (reach sample_props sample_run)) = [t]
    /\ forall n,
         let x' := run sample_props (repeat (TimerFires t) n)
                       (reach sample_props sample_run) in
         dispatched x' = (dispatched (reach sample_props sample_run) + n)%nat
         /\ settled x' = settled (reach sample_props sample_run)
         /\ state x' = state (reach sample_props sample_run).
Proof. apply (timer_firing_dispatches sample_props sample_run). reflexivity. Defined.

Lemma or_else_nonempty a d : d <> "" -> Js.or_else a d <> "".
Proof.
  intros Hd. unfold Js.or_else. destruct a as [s|]; [|exact Hd].
  destruct (String.eqb s "") eqn:He; [exact Hd|].
  now apply String.eqb_neq.
Qed.

(** X18: a rejected fetch puts a non-empty message in the error state, so
    that the alert icon and the red colours show whatever snapshot is
    tracked, and the error card when none is; the next answered fetch clears
    the error and the icon follows the new snapshot's state again. *)
Theorem error_shown_until_next_answer props err b s :
  let s1 := exec (fetchJobStatus_settled props (inr err)) s in
  let s2 := exec (fetchJobStatus_settled props (inl b)) s1 in
  truthy (error s1) = true
  /\ getStatusIcon s1 = (AlertCircle, "w-6 h-6 text-red-500")
  /\ getStatusColor s1 = "text-red-600 bg-red-50 border-red-200"
  /\ (job s = None -> view s1 = ErrorCard (error s1))
  /\ error s2 = None
  /\ view s2 = StatusCard b
  /\ getStatusIcon s2
     = getStatusIcon {| job := Some b; error := None; isPolling := true |}.
Proof.
  intros s1 s2. subst s2 s1. rewrite response_state, rejection_state.
  assert (Ht : truthy (Some (Js.or_else (Axios.response_detail err)
                                        "Failed to fetch job status")) = true).
  { simpl. apply negb_true_iff, String.eqb_neq, or_else_nonempty. discriminate. }
  unfold getStatusIcon, getStatusColor, view. cbn [error job].
  rewrite Ht. repeat split. intros ->. reflexivity.
Qed.

Lemma step_keeps_job props ev x j :
  job (state x) = Some j -> exists j', job (state (step props ev x)) = Some j'.
Proof.
  intros Hj. destruct ev as [t|[b|err]|]; simpl.
  - eauto.
  - destruct (settled x <? dispatched x)%nat; [|eauto].
    rewrite settle_state, response_state. simpl. eauto.
  - destruct (settled x <? dispatched x)%nat; [|eauto].
    rewrite settle_state, rejection_state. simpl. eauto.
  - destruct (stop_button_rendered (state x)); simpl; eauto.
Qed.

(** X19: a snapshot, once tracked, is only ever replaced by another one:
    no later event (rejected fetch, stop, timer) brings back the loading or
    the error card. *)
Theorem status_card_stays props evs evs' j :
  job (state (reach props evs)) = Some j ->
  exists j', view (state (run props evs' (reach props evs))) = StatusCard j'.
Proof.
  generalize (reach props evs) as x. revert j.
  induction evs' as [|ev evs' IH]; intros j x Hj; simpl.
  - exists j. unfold view. now rewrite Hj.
  - destruct (step_keeps_job props ev x Hj) as [j1 Hj1]. now apply (IH j1).
Qed.

Lemma status_card_stays_witness :
  exists j',
    view (state (run sample_props [Settles (inr network_error); ClickStop]
                     (reach sample_props sample_run)))
    = StatusCard j'.
Proof.
  apply (@status_card_stays sample_props sample_run
           [Settles (inr network_error); ClickStop]
           (snapshot "job-1" processing 80 "cleaning")).
  reflexivity.
Defined.

End TrackerExtras.

(** ** The system page and the endpoints *)

Module SystemExtras.
Import Api SystemPage.

Lemma append_cancel_l s a b : s ++ a = s ++ b -> a = b.
Proof.
  induction s as [|c s IH]; simpl; [auto|].
  intros H. inversion H. auto.
Qed.

(** X20: distinct job identifiers get distinct locations: under one base
    endpoint, [getDownloadUrl] and the status path agree on two identifiers
    only when the identifiers are equal. *)
Theorem endpoints_injective env id1 id2 :
  (getDownloadUrl env id1 = getDownloadUrl env id2 <-> id1 = id2)
  /\ (getJobStatus_path id1 = getJobStatus_path id2 <-> id1 = id2).
Proof.
  split; (split; [|now intros ->]).
  - unfold getDownloadUrl. intros H.
    apply append_cancel_l in H. now apply append_cancel_l in H.
  - unfold getJobStatus_path. apply append_cancel_l.
Qed.

Section Page.

Variable env : option string.

Lemma page_run_cons ev evs s :
  exec (run env (ev :: evs)) s = exec (run env evs) (exec (handle env ev) s)
  /\ effects (run env (ev :: evs)) s
     = (effects (handle env ev) s
        ++ effects (run env evs) (exec (handle env ev) s))%list.
Proof.
  unfold exec, effects; simpl; unfold bind.
  destruct (handle env ev s) as [[[] s1] l1]; simpl.
  destruct (run env evs s1) as [[[] s2] l2]; simpl. auto.
Qed.

Ltac handle_cases ev s :=
  unfold exec, effects, handle, handleUploadSuccess, handleUploadError,
    handleQualityModeChange, handleCheckForDownload,
    handleCheckForDownload_settled, startNewUpload, download_click,
    download_button_rendered;
  destruct s as [uj [cur|] form chk sel shown];
  destruct ev as [resp|msg|mode| |mode| |[st|err]| |];
  destruct form, chk, shown, uj; simpl in *;
  try destruct (in_registry mode) eqn:?;
  try destruct (Status_eqb (status st) completed && truthy (download_url st)) eqn:?;
  try destruct (Status_eqb (status st) failed) eqn:?;
  try destruct (Status_eqb (status cur) completed && truthy (download_url cur)) eqn:?;
  simpl in *.

Lemma handle_form ev s :
  form_shown_without_job s -> form_shown_without_job (exec (handle env ev) s).
Proof.
  unfold form_shown_without_job. intros H.
  handle_cases ev s; congruence.
Qed.

(** X21: after any sequence of events the page shows the upload form
    exactly when it holds no upload response, so the status section and the
    uploaded job always come together. *)
Theorem form_iff_no_job evs :
  let s := exec (run env evs) initial in
  showUploadForm s = true <-> uploadedJob s = None.
Proof.
  assert (H : forall s, form_shown_without_job s ->
              form_shown_without_job (exec (run env evs) s)).
  { induction evs as [|ev evs IH]; intros s Hs; [exact Hs|].
    destruct (page_run_cons ev evs s) as [-> _]. apply IH, handle_form, Hs. }
  intros s. specialize (H initial eq_refl). fold s in H.
  unfold form_shown_without_job in H. rewrite H.
  destruct (uploadedJob s); split; congruence.
Qed.


(** X23: the answer of a status check is stored whichever job is current.
    If the user starts over while a check is in flight and the next upload
    is acknowledged before the answer arrives, the page shows the old job's
    status under the new job, and its download button opens the old job's
    artifact. *)
Theorem stale_check_answer_shown r1 r2 st s :
  uploadedJob s = Some r1 -> showUploadForm s = false ->
  checkingStatus s = false ->
  let evs := [ClickCheck; ClickStartNew; UploadSucceeded r2;
              CheckSettled (inl st)] in
  let s' := exec (run env evs) s in
  uploadedJob s' = Some r2
  /\ currentJobStatus s' = Some st
  /\ filter is_get_status (effects (run env evs) s)
     = [get_status (FileUpload.job_id r1)]
  /\ (download_button_rendered s' = true ->
      effects (handle env ClickDownload) s'
      = [window_open (getDownloadUrl env (job_id st));
         toast_success "Download started! 📥"]).
Proof.
  intros Hjob Hform Hchk evs s'. subst s' evs.
  destruct s as [uj cur form chk sel shown]. simpl in Hjob, Hform, Hchk.
  subst uj form chk.
  unfold exec, effects, run, handle, bind, handleCheckForDownload,
    handleCheckForDownload_settled, startNewUpload, handleUploadSuccess,
    download_click, download_button_rendered.
  simpl.
  destruct (Status_eqb (status st) completed && truthy (download_url st)) eqn:Hready;
    [|destruct (Status_eqb (status st) failed)];
    simpl; rewrite ?Hready; repeat split; intros; try discriminate; reflexivity.
Qed.

Lemma known_mode_found m :
  known_mode m = true ->
  exists d, find (fun mode => String.eqb (value mode) m) qualityModes = Some d
            /\ value d = m /\ In d qualityModes.
Proof.
  unfold known_mode. intros H.
  destruct (find (fun mode => String.eqb (value mode) m) qualityModes) as [d|] eqn:Hf.
  - exists d. apply find_some in Hf. destruct Hf as [Hin Heq].
    apply String.eqb_eq in Heq. auto.
  - apply existsb_exists in H. destruct H as (d & Hin & Heq).
    now rewrite (find_none _ _ Hf d Hin) in Heq.
Qed.

Lemma handle_known_mode ev s :
  modes_known [ev] = true ->
  known_mode (selectedQualityMode s) = true ->
  known_mode (selectedQualityMode (exec (handle env ev) s)) = true.
Proof.
  intros Hev Hs.
  destruct ev as [resp|msg|mode| |mode| |[st|err]| |];
    unfold exec, handle, handleUploadSuccess, handleUploadError,
      handleQualityModeChange, handleCheckForDownload,
      handleCheckForDownload_settled, startNewUpload, download_click,
      in_registry.
  - simpl in *. rewrite andb_true_r in Hev. unfold Js.or_else.
    destruct (String.eqb (FileUpload.quality_mode resp) ""); [reflexivity|].
    exact Hev.
  - exact Hs.
  - destruct (showUploadForm s); simpl; [|exact Hs].
    destruct (known_mode (value mode)) eqn:Hk; simpl; [exact Hk | exact Hs].
  - destruct (showUploadForm s); simpl; exact Hs.
  - destruct (showUploadForm s), (showQualitySelector s); simpl; try exact Hs.
    destruct (known_mode (value mode)) eqn:Hk; simpl; [exact Hk | exact Hs].
  - destruct (showUploadForm s), (checkingStatus s); simpl; try exact Hs.
    destruct (uploadedJob s); simpl; exact Hs.
  - destruct (Status_eqb (status st) completed && truthy (download_url st));
      [|destruct (Status_eqb (status st) failed)]; simpl; exact Hs.
  - simpl. exact Hs.
  - destruct (showUploadForm s); simpl; [exact Hs | reflexivity].
  - destruct (download_button_rendered s); simpl; [|exact Hs].
    destruct (currentJobStatus s); simpl; exact Hs.
Qed.

Lemma modes_known_cons ev evs :
  modes_known (ev :: evs) = modes_known [ev] && modes_known evs.
Proof.
  destruct ev; simpl; try reflexivity.
  now rewrite andb_true_r.
Qed.

(** X24: as long as every upload response names a quality mode of the
    registry (or none), the selected mode is one of the registry's: the
    lookup behind the mode display always finds the entry whose [value] is
    the selected mode. *)
Theorem selected_mode_defined evs :
  modes_known evs = true ->
  let s := exec (run env evs) initial in
  exists d, selectedMode s = Some d
            /\ value d = selectedQualityMode s /\ In d qualityModes.
Proof.
  intros Hk s. apply known_mode_found. subst s.
  assert (H : forall s0, known_mode (selectedQualityMode s0) = true ->
              modes_known evs = true ->
              known_mode (selectedQualityMode (exec (run env evs) s0)) = true).
  { clear Hk. induction evs as [|ev evs IH]; intros s0 Hs0 Hk; [exact Hs0|].
    destruct (page_run_cons ev evs s0) as [-> _].
    rewrite modes_known_cons in Hk. apply andb_true_iff in Hk.
    destruct Hk as [Hev Hk].
    apply IH; [now apply handle_known_mode | exact Hk]. }
  apply H; [reflexivity | exact Hk].
Qed.

Lemma handle_requests ev s id :
  In (get_status id) (effects (handle env ev) s) ->
  exists j, uploadedJob s = Some j /\ FileUpload.job_id j = id.
Proof.
  handle_cases ev s; intros Hin;
    repeat (destruct Hin as [Hin|Hin]; try discriminate);
    try contradiction.
  all: inversion Hin; eauto.
Qed.

Lemma handle_job ev s j :
  uploadedJob (exec (handle env ev) s) = Some j ->
  uploadedJob s = Some j \/ ev = UploadSucceeded j.
Proof.
  handle_cases ev s; intros H; try discriminate; auto.
  all: inversion H; auto.
Qed.

(** X25: the only status requests the page ever sends are for job
    identifiers that an upload response has delivered, and only the check
    button sends one: no other event does, and changing the quality mode
    after the upload only sets the selected mode and raises its toast. *)
Theorem status_requests_for_uploaded_jobs evs :
  (forall id, In (get_status id) (effects (run env evs) initial) ->
              In id (uploaded_ids evs))
  /\ (forall ev s, ev <> ClickCheck ->
        filter is_get_status (effects (handle env ev) s) = [])
  /\ (forall mode s,
        effects (handleQualityModeChange mode) s
        = [toast_success ("Quality mode changed to " ++ mode)]
        /\ exec (handleQualityModeChange mode) s = setSelectedQualityMode mode s).
Proof.
  split; [|split].
  - intros id.
    assert (H : forall s,
                In (get_status id) (effects (run env evs) s) ->
                In id (uploaded_ids evs)
                \/ exists j, uploadedJob s = Some j /\ FileUpload.job_id j = id).
    { induction evs as [|ev evs IH]; intros s Hin; [destruct Hin|].
      destruct (page_run_cons ev evs s) as [_ Hl]. rewrite Hl in Hin.
      apply in_app_or in Hin. destruct Hin as [Hin|Hin].
      - right. now apply (handle_requests ev).
      - destruct (IH _ Hin) as [Hids|(j & Hj & Hid)].
        + left. destruct ev; simpl; auto.
        + destruct (handle_job ev s Hj) as [Hs| ->].
          * right. eauto.
          * left. simpl. auto. }
    intros Hin. destruct (H initial Hin) as [Hids|(j & Hj & _)];
      [exact Hids | discriminate].
  - intros ev s Hne. handle_cases ev s; try reflexivity; contradiction.
  - intros mode s. split; reflexivity.
Qed.

End Page.


Lemma stale_check_answer_shown_witness :
  let r1 := sample_response "job-1" in
  let r2 := sample_response "job-2" in
  let st := JobStatusTracker.sample_completed in
  let s := exec (run None [UploadSucceeded r1]) initial in
  let evs := [ClickCheck; ClickStartNew; UploadSucceeded r2;
              CheckSettled (inl st)] in
  let s' := exec (run None evs) s in
  uploadedJob s' = Some r2
  /\ currentJobStatus s' = Some st
  /\ filter is_get_status (effects (run None evs) s)
     = [get_status "job-1"]
  /\ (download_button_rendered s' = true ->
      effects (handle None ClickDownload) s'
      = [window_open "http://localhost:8000/api/v1/download/job-1";
         toast_success "Download started! 📥"]).
Proof.
  intros r1 r2 st s.
  apply (@stale_check_answer_shown None r1 r2 st s); reflexivity.
Defined.

Lemma selected_mode_defined_witness :
  let r := sample_response "job-1" in
  let s := exec (run None [UploadSucceeded r; ToggleSelector]) initial in
  exists d, selectedMode s = Some d
            /\ value d = selectedQualityMode s /\ In d qualityModes.
Proof.
  intros r.
  apply (@selected_mode_defined None [UploadSucceeded r; ToggleSelector]).
  reflexivity.
Defined.

Lemma status_requests_for_uploaded_jobs_witness :
  In "job-1"
     (uploaded_ids [UploadSucceeded (sample_response "job-1"); ClickCheck]).
Proof.
  apply (proj1 (@status_requests_for_uploaded_jobs None
                  [UploadSucceeded (sample_response "job-1"); ClickCheck])
           "job-1").
  vm_compute. right. left. reflexivity.
Defined.

End SystemExtras.
